(** * Rotation lock: a shallow embedding of kernel/rotation.c

    The three system calls [set_orientation], [rotation_lock] and
    [rotation_unlock] are rendered as functions on an explicit record of the
    file's static variables.  A call of [rotation_lock] that reaches
    [schedule()] is kept in the wait queue [requests] of the state, together
    with the local variables it will need when it runs again; the scheduler
    is an event of the transition system.  Every event is one atomic
    transition: interleavings inside a system call are outside this model. *)

From Stdlib Require Import ZArith Lia Bool List.
From stdpp Require Import base list sorting.

Open Scope Z_scope.

(** ** Constants and machine integers *)

(** errno values of the kernel (asm-generic/errno-base.h). *)
Definition EPERM : Z := 1.
Definition EINVAL : Z := 22.

(** [long] is 64 bits wide; the kernel is built so that signed overflow wraps. *)
Definition LONG_MAX : Z := 2 ^ 63 - 1.
Definition long_wrap (z : Z) : Z := (z + 2 ^ 63) mod 2 ^ 64 - 2 ^ 63.

(** ** Data *)

(** Modelled from the spec: [struct reader_writer_lock] is declared in
    linux/rotation.h, which is not among the sources.  The three fields are
    the ones rotation.c reads and writes; the spec calls them counters, and
    they are mathematical integers here. *)
Record reader_writer_lock : Type := mk_rw {
  active_readers : Z;
  active_writers : Z;
  waiting_writers : Z
}.

(** Modelled from the spec: [struct lock_info] comes from the same header.
    Fields as rotation.c assigns them ([lock->id], [lock->pid], ...); the
    [list] member is the position in [locks_info]. *)
Record lock_info : Type := mk_lock {
  lock_id : Z;
  lock_pid : Z;
  lock_low : Z;
  lock_high : Z;
  lock_type : Z
}.

(** A call of [rotation_lock] that is inside its [while] loop: the wait-queue
    entry [wait] with the locals [lock] and [writer_waiting], and whether the
    task sleeps in [schedule()]. *)
Record waiter : Type := mk_waiter {
  wait_lock : lock_info;
  writer_waiting : bool;
  sleeping : bool
}.

(** The static variables of rotation.c. *)
Record state : Type := mk_state {
  device_orientation : Z;
  locks_info : list lock_info;
  locks : list reader_writer_lock;
  locks_initialized : bool;
  requests : list waiter;
  next_lock_id : Z
}.

Definition zero_lock : reader_writer_lock := mk_rw 0 0 0.

#[global] Instance reader_writer_lock_inhabited : Inhabited reader_writer_lock :=
  populate zero_lock.

(** Static storage is zero-initialised; the explicit initialisers are 0. *)
Definition initial_state : state :=
  mk_state 0 [] (replicate 360 zero_lock) false [] 0.

Definition set_device_orientation (v : Z) (st : state) : state :=
  mk_state v (locks_info st) (locks st) (locks_initialized st) (requests st)
           (next_lock_id st).

Definition set_locks_info (v : list lock_info) (st : state) : state :=
  mk_state (device_orientation st) v (locks st) (locks_initialized st)
           (requests st) (next_lock_id st).

Definition set_locks (v : list reader_writer_lock) (st : state) : state :=
  mk_state (device_orientation st) (locks_info st) v (locks_initialized st)
           (requests st) (next_lock_id st).

Definition set_locks_initialized (v : bool) (st : state) : state :=
  mk_state (device_orientation st) (locks_info st) (locks st) v (requests st)
           (next_lock_id st).

Definition set_requests (v : list waiter) (st : state) : state :=
  mk_state (device_orientation st) (locks_info st) (locks st)
           (locks_initialized st) v (next_lock_id st).

Definition set_next_lock_id (v : Z) (st : state) : state :=
  mk_state (device_orientation st) (locks_info st) (locks st)
           (locks_initialized st) (requests st) v.

(** ** Loops over a degree range *)

(** [for (int i = low; i <= high; i++) body(locks[i]);]
    The loop runs [high - low + 1] times when [low <= high] and not at all
    otherwise.  Every caller has checked [0 <= low, high < 360], so [i] stays
    inside the array; outside it the model leaves the table alone. *)
Fixpoint for_each (n : nat) (i : Z)
    (body : reader_writer_lock -> reader_writer_lock)
    (tbl : list reader_writer_lock) : list reader_writer_lock :=
  match n with
  | O => tbl
  | S n' => for_each n' (i + 1) body (alter body (Z.to_nat i) tbl)
  end.

Definition for_range (low high : Z)
    (body : reader_writer_lock -> reader_writer_lock)
    (tbl : list reader_writer_lock) : list reader_writer_lock :=
  for_each (Z.to_nat (high - low + 1)) low body tbl.

(** The same loop with [if (busy(locks[i])) return 0;] as body and
    [return 1;] after it.  Outside the array the model reads a slot of
    zeros; the callers keep [i] inside. *)
Fixpoint scan (n : nat) (i : Z) (busy : reader_writer_lock -> bool)
    (tbl : list reader_writer_lock) : bool :=
  match n with
  | O => true
  | S n' =>
      if busy (tbl !!! Z.to_nat i) then false else scan n' (i + 1) busy tbl
  end.

Definition scan_range (low high : Z) (busy : reader_writer_lock -> bool)
    (tbl : list reader_writer_lock) : bool :=
  scan (Z.to_nat (high - low + 1)) low busy tbl.

Definition inc_active_readers (s : reader_writer_lock) : reader_writer_lock :=
  mk_rw (active_readers s + 1) (active_writers s) (waiting_writers s).
Definition dec_active_readers (s : reader_writer_lock) : reader_writer_lock :=
  mk_rw (active_readers s - 1) (active_writers s) (waiting_writers s).
Definition inc_active_writers (s : reader_writer_lock) : reader_writer_lock :=
  mk_rw (active_readers s) (active_writers s + 1) (waiting_writers s).
Definition dec_active_writers (s : reader_writer_lock) : reader_writer_lock :=
  mk_rw (active_readers s) (active_writers s - 1) (waiting_writers s).
Definition inc_waiting_writers (s : reader_writer_lock) : reader_writer_lock :=
  mk_rw (active_readers s) (active_writers s) (waiting_writers s + 1).
Definition dec_waiting_writers (s : reader_writer_lock) : reader_writer_lock :=
  mk_rw (active_readers s) (active_writers s) (waiting_writers s - 1).

(** ** The list of held locks *)

(** Modelled from the spec: [find_lock] has a prototype and a doc comment in
    rotation.c ("Find a lock by ID ... the lock, or NULL if not found") but
    no body in the sources.  The spec describes a linear scan of the linked
    list for the id; this is that scan, returning the first match. *)
Fixpoint find_lock (l : list lock_info) (i : Z) : option lock_info :=
  match l with
  | [] => None
  | x :: l' => if lock_id x =? i then Some x else find_lock l' i
  end.

(** [list_del(&lock->list)] for the node [find_lock] returned: the first
    node carrying that id is unlinked. *)
Fixpoint list_del (i : Z) (l : list lock_info) : list lock_info :=
  match l with
  | [] => []
  | x :: l' => if lock_id x =? i then l' else x :: list_del i l'
  end.

(** ** The wait queue *)

Definition wake (w : waiter) : waiter :=
  mk_waiter (wait_lock w) (writer_waiting w) false.

(** [wake_up_all(requests)] *)
Definition wake_up_all (st : state) : state :=
  set_requests (wake <$> requests st) st.

Section Rotation.

(** [ROT_READ] and [ROT_WRITE] are macros of the missing header
    linux/rotation.h: they are parameters of the development. *)
Variables ROT_READ ROT_WRITE : Z.

(** ** set_orientation *)

Definition set_orientation (degree : Z) (st : state) : state * Z :=
  if (degree <? 0) || (degree >=? 360) then (st, - EINVAL)
  else (set_device_orientation degree st, 0).

(** ** Helpers of rotation_lock *)

Definition locks_init (st : state) : state :=
  if locks_initialized st then st
  else
    set_locks_initialized true
      (set_locks
         (for_range 0 359
            (fun _ => mk_rw 0 0 0) (locks st)) st).

Definition orientation_in_range (low high : Z) (st : state) : bool :=
  if low <=? high then
    (device_orientation st >=? low) && (device_orientation st <=? high)
  else
    (device_orientation st >=? low) || (device_orientation st <=? high).

Definition reader_busy (s : reader_writer_lock) : bool :=
  (active_writers s >? 0) || (waiting_writers s >? 0).

Definition writer_busy (s : reader_writer_lock) : bool :=
  (active_readers s >? 0) || (active_writers s >? 0).

Definition lock_available (low high type : Z) (st : state) : bool :=
  if negb (orientation_in_range low high st) then false
  else if type =? ROT_READ then scan_range low high reader_busy (locks st)
  else scan_range low high writer_busy (locks st).

(** ** rotation_lock *)

(** The code after the loop: [list_add], the [waiting_writers] decrement
    when the call had registered as a waiting writer, and the [active_xxx]
    increment. *)
Definition grant (lock : lock_info) (ww : bool) (st : state) : state :=
  let st1 := set_locks_info (lock :: locks_info st) st in
  let st2 :=
    if ww then
      set_locks (for_range (lock_low lock) (lock_high lock)
                   dec_waiting_writers (locks st1)) st1
    else st1 in
  set_locks
    (for_range (lock_low lock) (lock_high lock)
       (fun s => if lock_type lock =? ROT_READ then inc_active_readers s
                 else inc_active_writers s)
       (locks st2)) st2.

(** One pass through the loop body up to [schedule()]: the call registers
    as a waiting writer if it is a writer and has not done so, and sleeps. *)
Definition suspend (k : nat) (w : waiter) (st : state) : state :=
  let lock := wait_lock w in
  let register := (lock_type lock =? ROT_WRITE) && negb (writer_waiting w) in
  let st1 :=
    if register then
      set_locks (for_range (lock_low lock) (lock_high lock)
                   inc_waiting_writers (locks st)) st
    else st in
  let ww := if register then true else writer_waiting w in
  set_requests (<[k := mk_waiter lock ww true]> (requests st1)) st1.

(** The call whose wait entry is the [k]-th of the queue runs from the loop
    test on, until it returns ([Some id]) or reaches [schedule()] ([None]).
    A sleeping task does not run. *)
Definition rotation_lock_loop (k : nat) (st : state) : state * option Z :=
  match requests st !! k with
  | None => (st, None)
  | Some w =>
      if sleeping w then (st, None)
      else
        let lock := wait_lock w in
        if lock_available (lock_low lock) (lock_high lock) (lock_type lock) st
        then
          (* finish_wait *)
          let st1 := set_requests (delete k (requests st)) st in
          (grant lock (writer_waiting w) st1, Some (lock_id lock))
        else (suspend k w st, None)
  end.

(** The argument test at the head of the system call. *)
Definition args_invalid (low high type : Z) : bool :=
  (low <? 0) || (low >=? 360) || (high <? 0) || (high >=? 360)
  || (negb (type =? ROT_READ) && negb (type =? ROT_WRITE)).

(** "Create a new lock": the [lock_info] with [id = next_lock_id++] and the
    caller's pid. *)
Definition new_lock (caller low high type : Z) (st : state)
  : lock_info * state :=
  (mk_lock (next_lock_id st) caller low high type,
   set_next_lock_id (long_wrap (next_lock_id st + 1)) st).

(** The system call from its entry to its return or its first
    [schedule()]. *)
Definition rotation_lock (caller low high type : Z) (st : state)
  : state * option Z :=
  let st0 := locks_init st in
  if args_invalid low high type then (st0, Some (- EINVAL))
  else
    let '(lock, st1) := new_lock caller low high type st0 in
    (* add_wait_queue; writer_waiting = 0 *)
    let st2 := set_requests (mk_waiter lock false false :: requests st1) st1 in
    rotation_lock_loop 0 st2.

(** ** rotation_unlock *)

Definition rotation_unlock (caller i : Z) (st : state) : state * Z :=
  if i <? 0 then (st, - EINVAL)
  else
    match find_lock (locks_info st) i with
    | None => (st, - EINVAL)
    | Some lock =>
        if negb (lock_pid lock =? caller) then (st, - EPERM)
        else
          let st1 := set_locks_info (list_del i (locks_info st)) st in
          let st2 :=
            set_locks
              (for_range (lock_low lock) (lock_high lock)
                 (fun s => if lock_type lock =? ROT_READ
                           then dec_active_readers s
                           else dec_active_writers s)
                 (locks st1)) st1 in
          (wake_up_all st2, 0)
    end.

(** ** The transition system *)

Inductive event : Type :=
| SetOrientation (degree : Z)
| RotationLock (caller low high type : Z)
| RotationUnlock (caller i : Z)
| Resume (k : nat)      (* the scheduler runs the k-th queued call *)
| Signal (k : nat).     (* a signal wakes the k-th queued call
                           (TASK_INTERRUPTIBLE) *)

(** The state after the event and the value a system call returned, if one
    returned. *)
Definition exec (e : event) (st : state) : state * option Z :=
  match e with
  | SetOrientation degree =>
      let '(st', r) := set_orientation degree st in (st', Some r)
  | RotationLock caller low high type => rotation_lock caller low high type st
  | RotationUnlock caller i =>
      let '(st', r) := rotation_unlock caller i st in (st', Some r)
  | Resume k => rotation_lock_loop k st
  | Signal k => (set_requests (alter wake k (requests st)) st, None)
  end.

Fixpoint run (evs : list event) (st : state) : state :=
  match evs with
  | [] => st
  | e :: evs' => run evs' (fst (exec e st))
  end.

(** The ids that events take from [next_lock_id], in the order of the
    events. *)
Definition issued_by (e : event) (st : state) : list Z :=
  match e with
  | RotationLock caller low high type =>
      if args_invalid low high type then []
      else [lock_id (fst (new_lock caller low high type (locks_init st)))]
  | _ => []
  end.

Fixpoint issued (evs : list event) (st : state) : list Z :=
  match evs with
  | [] => []
  | e :: evs' => issued_by e st ++ issued evs' (fst (exec e st))
  end.

(** The lock ids that calls of [rotation_lock] return, in the order of
    their returns; a call that slept returns when the scheduler runs it. *)
Definition granted_by (e : event) (st : state) : list Z :=
  match e with
  | RotationLock caller low high type =>
      if args_invalid low high type then []
      else option_list (snd (exec e st))
  | Resume k => option_list (snd (exec e st))
  | _ => []
  end.

Fixpoint granted (evs : list event) (st : state) : list Z :=
  match evs with
  | [] => []
  | e :: evs' => granted_by e st ++ granted evs' (fst (exec e st))
  end.

(** ** Notions used in the statements *)

(** The ids of the held locks and of the calls in the queue. *)
Definition registry_ids (st : state) : list Z := lock_id <$> locks_info st.

Definition queue_ids (st : state) : list Z :=
  (fun w => lock_id (wait_lock w)) <$> requests st.

Definition held_ids (st : state) : list Z := registry_ids st ++ queue_ids st.

(** Ids in use are distinct, non-negative and below [next_lock_id]. *)
Definition ids_ok (st : state) : Prop :=
  0 <= next_lock_id st /\
  NoDup (held_ids st) /\
  Forall (fun i => 0 <= i < next_lock_id st) (held_ids st).

(** Wrap-aware containment of a degree in [[low, high]]: the test
    [orientation_in_range] applies to [device_orientation]. *)
Definition covers (low high d : Z) : bool :=
  if low <=? high then (d >=? low) && (d <=? high)
  else (d >=? low) || (d <=? high).

(** The counter of degree [d]. *)
Definition slot (st : state) (d : Z) : reader_writer_lock :=
  locks st !!! Z.to_nat d.

(** Static storage before [locks_init] has run holds zeros. *)
Definition zeroed_until_init (st : state) : Prop :=
  locks_initialized st = false -> locks st = replicate 360 zero_lock.

(** What a run keeps true of the ids: [iss] are the ids issued so far and
    [gr] the ids returned so far. *)
Definition ids_inv (st : state) (iss gr : list Z) : Prop :=
  0 <= next_lock_id st /\
  NoDup (held_ids st) /\
  Forall (fun i => 0 <= i < next_lock_id st) iss /\
  StronglySorted Z.lt iss /\
  (forall i, i ∈ held_ids st -> i ∈ iss) /\
  NoDup gr /\
  (forall g, g ∈ gr -> g ∈ iss /\ g ∉ queue_ids st).

(** An id that was issued and is no longer in use. *)
Definition retired (i : Z) (st : state) : Prop :=
  0 <= i < next_lock_id st /\ i ∉ held_ids st.

(** The degrees the loops of the file visit for a lock: [low..high], none
    when [low > high]. *)
Definition visits (l : lock_info) (d : Z) : bool :=
  (lock_low l <=? d) && (d <=? lock_high l).

(** How many elements of a list satisfy [p]. *)
Fixpoint tally {A : Type} (p : A -> bool) (l : list A) : Z :=
  match l with
  | [] => 0
  | x :: l' => (if p x then 1 else 0) + tally p l'
  end.

(** What the counters of degree [d] should be: the held read locks, the
    held write locks and the registered waiting writers whose loop visits
    [d]. *)
Definition counts (st : state) (d : Z) : reader_writer_lock :=
  mk_rw
    (tally (fun l => (lock_type l =? ROT_READ) && visits l d) (locks_info st))
    (tally (fun l => negb (lock_type l =? ROT_READ) && visits l d)
       (locks_info st))
    (tally (fun w => writer_waiting w && visits (wait_lock w) d)
       (requests st)).

(** A writer is alone on its degree. *)
Definition exclusive (s : reader_writer_lock) : Prop :=
  active_writers s <= 1 /\ (1 <= active_writers s -> active_readers s <= 0).

(** Before the first [rotation_lock] nothing has been written: the table
    holds zeros, no lock is held and no call is queued. *)
Definition untouched (st : state) : Prop :=
  locks_initialized st = false ->
  locks st = replicate 360 zero_lock /\ locks_info st = [] /\
  requests st = [].

(** What every run keeps true of the counter table: 360 slots, untouched
    until initialised, held and queued locks with [low >= 0], every counter
    equal to the number of locks it stands for, writers alone. *)
Definition counters_inv (st : state) : Prop :=
  length (locks st) = 360%nat /\
  untouched st /\
  Forall (fun l => 0 <= lock_low l) (locks_info st) /\
  Forall (fun w => 0 <= lock_low (wait_lock w)) (requests st) /\
  (forall d, 0 <= d < 360 -> slot st d = counts st d) /\
  (forall d, 0 <= d < 360 -> exclusive (slot st d)).

(** A call of the queue between two events: its arguments passed the test
    of [rotation_lock], and it is registered as a waiting writer exactly
    when its type is [ROT_WRITE]. *)
Definition queued_ok (w : waiter) : Prop :=
  args_invalid (lock_low (wait_lock w)) (lock_high (wait_lock w))
    (lock_type (wait_lock w)) = false /\
  writer_waiting w = (lock_type (wait_lock w) =? ROT_WRITE).

(** Events that are no call of [rotation_lock] or [rotation_unlock]: the
    orientation is set, a signal arrives, the scheduler runs a queued
    call. *)
Definition background (e : event) : Prop :=
  match e with
  | RotationLock _ _ _ _ | RotationUnlock _ _ => False
  | _ => True
  end.

(** The queue without the sleep flags: the lock and the [writer_waiting]
    flag of every queued call. *)
Definition queue_data (st : state) : list (lock_info * bool) :=
  (fun w => (wait_lock w, writer_waiting w)) <$> requests st.

(** A call with lock [L] is in its wait loop at the head of the queue, the
    table being [T0] apart from its registration as a waiting writer and
    the held locks being [R0]. *)
Definition waiting_phase (T0 : list reader_writer_lock)
    (R0 : list lock_info) (Q0 : list (lock_info * bool)) (L : lock_info)
    (s : state) : Prop :=
  locks s
  = (if lock_type L =? ROT_WRITE
     then for_range (lock_low L) (lock_high L) inc_waiting_writers T0
     else T0) /\
  locks_info s = R0 /\
  queue_data s = (L, lock_type L =? ROT_WRITE) :: Q0 /\
  Forall queued_ok (requests s).

(** The lock [L] has been granted: it heads the held locks [R0], the table
    being [T0] apart from its active counter. *)
Definition holding_phase (T0 : list reader_writer_lock)
    (R0 : list lock_info) (L : lock_info) (s : state) : Prop :=
  locks s
  = for_range (lock_low L) (lock_high L)
      (fun x => if lock_type L =? ROT_READ then inc_active_readers x
                else inc_active_writers x) T0 /\
  locks_info s = L :: R0 /\
  Forall queued_ok (requests s).

(** ** Loops *)

Ltac no_elem :=
  match goal with
  | H : _ ∈ [] |- _ => by apply not_elem_of_nil in H
  end.

Ltac slot_arith :=
  unfold exclusive, reader_busy, writer_busy, inc_active_readers,
    inc_active_writers, dec_active_readers, dec_active_writers,
    inc_waiting_writers, dec_waiting_writers in *;
  cbn [active_readers active_writers waiting_writers andb negb] in *;
  repeat match goal with
    | H : _ || _ = false |- _ => apply orb_false_iff in H as [? ?]
    end;
  try (f_equal; lia); try lia.

Lemma length_for_each n i body tbl :
  length (for_each n i body tbl) = length tbl.
Proof.
  revert i tbl. induction n as [|n IH]; intros i tbl; simpl; [done|].
  by rewrite IH, length_alter.
Qed.

Lemma length_for_range low high body tbl :
  length (for_range low high body tbl) = length tbl.
Proof. apply length_for_each. Qed.

Lemma for_range_empty low high body tbl :
  high < low -> for_range low high body tbl = tbl.
Proof.
  intros H. unfold for_range.
  replace (Z.to_nat (high - low + 1)) with O by lia. done.
Qed.

Lemma scan_range_empty low high busy tbl :
  high < low -> scan_range low high busy tbl = true.
Proof.
  intros H. unfold scan_range.
  replace (Z.to_nat (high - low + 1)) with O by lia. done.
Qed.

(** What the loop leaves at index [j]. *)
Lemma for_each_lookup n i body tbl (j : nat) :
  0 <= i ->
  for_each n i body tbl !! j =
    if decide (Z.to_nat i <= j < Z.to_nat i + n)%nat
    then body <$> tbl !! j else tbl !! j.
Proof.
  revert i tbl. induction n as [|n IH]; intros i tbl Hi; simpl.
  - case_decide; [lia | done].
  - rewrite IH by lia.
    replace (Z.to_nat (i + 1)) with (S (Z.to_nat i)) by lia.
    destruct (decide (Z.to_nat i = j)) as [->|Hne].
    + rewrite list_lookup_alter_eq.
      repeat case_decide; try lia; done.
    + rewrite list_lookup_alter_ne by done.
      repeat case_decide; try lia; done.
Qed.

Lemma for_range_lookup low high body tbl (d : Z) :
  0 <= low -> 0 <= d ->
  for_range low high body tbl !! Z.to_nat d =
    if decide (low <= d <= high)
    then body <$> tbl !! Z.to_nat d else tbl !! Z.to_nat d.
Proof.
  intros Hl Hd. unfold for_range. rewrite for_each_lookup by done.
  repeat case_decide; try lia; done.
Qed.

Lemma for_each_inverse n i f g tbl :
  0 <= i -> (forall s, g (f s) = s) ->
  for_each n i g (for_each n i f tbl) = tbl.
Proof.
  intros Hi Hgf. apply list_eq. intros j.
  rewrite !for_each_lookup by done.
  case_decide; [|done].
  destruct (tbl !! j); simpl; [by rewrite Hgf | done].
Qed.

Lemma for_range_inverse low high f g tbl :
  0 <= low -> (forall s, g (f s) = s) ->
  for_range low high g (for_range low high f tbl) = tbl.
Proof. intros. by apply for_each_inverse. Qed.

Lemma scan_true n i busy tbl :
  scan n i busy tbl = true <->
  forall d, i <= d < i + Z.of_nat n -> busy (tbl !!! Z.to_nat d) = false.
Proof.
  revert i. induction n as [|n IH]; intros i; simpl.
  - split; [intros _ d Hd; lia | done].
  - destruct (busy (tbl !!! Z.to_nat i)) eqn:Hb.
    + split; [done|]. intros H. rewrite H in Hb by lia. done.
    + rewrite IH. split.
      * intros H d Hd. destruct (decide (d = i)) as [->|]; [done|].
        apply H. lia.
      * intros H d Hd. apply H. lia.
Qed.

Lemma scan_range_true low high busy tbl :
  scan_range low high busy tbl = true <->
  forall d, low <= d <= high -> busy (tbl !!! Z.to_nat d) = false.
Proof.
  unfold scan_range. rewrite scan_true.
  split; intros H d Hd; apply H; lia.
Qed.

Lemma orientation_in_range_covers low high st :
  orientation_in_range low high st = covers low high (device_orientation st).
Proof. reflexivity. Qed.

(** What [lock_available] computes, for every range: the loop bounds are
    [low] and [high] as given, so a range with [high < low] has no degree
    checked. *)
Lemma lock_available_true low high type st :
  lock_available low high type st = true <->
  covers low high (device_orientation st) = true /\
  forall d, low <= d <= high ->
    if type =? ROT_READ then reader_busy (slot st d) = false
    else writer_busy (slot st d) = false.
Proof.
  unfold lock_available. rewrite orientation_in_range_covers.
  destruct (covers low high (device_orientation st)); simpl.
  - destruct (type =? ROT_READ); rewrite scan_range_true;
      (split; [by split | by intros [_ ?]]).
  - split; [done | by intros [? _]].
Qed.

Lemma for_range_zero_fill :
  for_range 0 359 (fun _ => mk_rw 0 0 0) (replicate 360 zero_lock)
  = replicate 360 zero_lock.
Proof. by vm_compute. Qed.

(** [locks_init] rewrites zeros with zeros: all it changes is its flag. *)
Lemma locks_init_flag st :
  zeroed_until_init st -> locks_init st = set_locks_initialized true st.
Proof.
  unfold zeroed_until_init, locks_init. intros H.
  destruct (locks_initialized st) eqn:E.
  - destruct st. cbn in E. by rewrite E.
  - rewrite (H eq_refl), for_range_zero_fill, <- (H eq_refl).
    by destruct st.
Qed.

Lemma locks_init_zeroed st :
  zeroed_until_init st -> locks (locks_init st) = locks st.
Proof. intros H. by rewrite locks_init_flag. Qed.

(** ** The registry *)

Lemma find_lock_None l i :
  find_lock l i = None <-> forall x, x ∈ l -> lock_id x <> i.
Proof.
  induction l as [|y l IH]; simpl.
  - split; [intros _ x Hx; by apply not_elem_of_nil in Hx | done].
  - destruct (lock_id y =? i) eqn:E.
    + apply Z.eqb_eq in E. split; [done|].
      intros H. destruct (H y); [left | done].
    + apply Z.eqb_neq in E. rewrite IH. split.
      * intros H x Hx. apply elem_of_cons in Hx as [->|Hx]; auto.
      * intros H x Hx. apply H. by right.
Qed.

Lemma find_lock_Some l i x :
  find_lock l i = Some x -> x ∈ l /\ lock_id x = i.
Proof.
  induction l as [|y l IH]; simpl; [done|].
  destruct (lock_id y =? i) eqn:E.
  - intros [= ->]. apply Z.eqb_eq in E. split; [left | done].
  - intros H. destruct (IH H). split; [by right | done].
Qed.

Lemma list_del_ids i l :
  lock_id <$> list_del i l ⊆+ lock_id <$> l.
Proof.
  induction l as [|y l IH]; simpl; [done|].
  destruct (lock_id y =? i); simpl.
  - by apply submseteq_cons.
  - by apply submseteq_skip.
Qed.

Lemma list_del_gone i l :
  NoDup (lock_id <$> l) -> i ∉ lock_id <$> list_del i l.
Proof.
  induction l as [|y l IH]; simpl; intros Hnd.
  - apply not_elem_of_nil.
  - apply NoDup_cons in Hnd as [Hy Hnd].
    destruct (lock_id y =? i) eqn:E; simpl.
    + apply Z.eqb_eq in E. by subst i.
    + apply Z.eqb_neq in E. rewrite not_elem_of_cons. auto.
Qed.

(** ** set_orientation *)

(** C9: for every degree in [0,360) set_orientation succeeds and the stored
    orientation afterwards is that degree; for a degree below 0 or from 360
    on it returns -EINVAL and the state, the stored orientation included,
    is the one before the call. *)
Theorem set_orientation_stores_or_rejects degree st :
  (0 <= degree < 360 ->
     snd (set_orientation degree st) = 0 /\
     device_orientation (fst (set_orientation degree st)) = degree) /\
  (degree < 0 \/ 360 <= degree ->
     snd (set_orientation degree st) = - EINVAL /\
     fst (set_orientation degree st) = st).
Proof.
  unfold set_orientation. split; intros H.
  - replace ((degree <? 0) || (degree >=? 360)) with false; [done|].
    symmetry. apply orb_false_iff. lia.
  - replace ((degree <? 0) || (degree >=? 360)) with true; [done|].
    symmetry. apply orb_true_iff. lia.
Qed.

(** C10: set_orientation changes nothing but the stored orientation: the
    counters of every degree, the held locks, the next lock id (and the wait
    queue and the initialisation flag) are the same after the call, whether
    it succeeds or fails. *)
Theorem set_orientation_frame degree st :
  locks (fst (set_orientation degree st)) = locks st /\
  locks_info (fst (set_orientation degree st)) = locks_info st /\
  next_lock_id (fst (set_orientation degree st)) = next_lock_id st /\
  requests (fst (set_orientation degree st)) = requests st /\
  locks_initialized (fst (set_orientation degree st)) = locks_initialized st.
Proof.
  unfold set_orientation.
  by destruct ((degree <? 0) || (degree >=? 360)).
Qed.

(** ** rotation_unlock *)

(** C5: rotation_unlock returns -EINVAL when the id is negative or no held
    lock carries it, and -EPERM when the lock found for the id belongs to
    another pid than the caller's; in each of these cases the whole state
    (list of held locks, counters, everything else) is returned as it
    was. *)
Theorem rotation_unlock_failures caller i st :
  (i < 0 \/ (forall l, l ∈ locks_info st -> lock_id l <> i) ->
     rotation_unlock caller i st = (st, - EINVAL)) /\
  (forall l, 0 <= i -> find_lock (locks_info st) i = Some l ->
     lock_pid l <> caller ->
     rotation_unlock caller i st = (st, - EPERM)).
Proof.
  unfold rotation_unlock. split.
  - intros [Hneg | Hno].
    + by replace (i <? 0) with true by lia.
    + destruct (i <? 0); [done|].
      apply find_lock_None in Hno. by rewrite Hno.
  - intros l Hi Hfind Hpid.
    replace (i <? 0) with false by lia. rewrite Hfind.
    by replace (lock_pid l =? caller) with false by lia.
Qed.

(** ** rotation_lock *)

Lemma args_invalid_true low high type :
  args_invalid low high type = true <->
  low < 0 \/ 360 <= low \/ high < 0 \/ 360 <= high \/
  (type <> ROT_READ /\ type <> ROT_WRITE).
Proof.
  unfold args_invalid.
  rewrite !orb_true_iff, andb_true_iff, !negb_true_iff, !Z.eqb_neq.
  lia.
Qed.

Lemma args_invalid_false low high type :
  args_invalid low high type = false <->
  0 <= low < 360 /\ 0 <= high < 360 /\ (type = ROT_READ \/ type = ROT_WRITE).
Proof.
  rewrite <- not_true_iff_false, args_invalid_true. lia.
Qed.

Lemma locks_init_fields st :
  device_orientation (locks_init st) = device_orientation st /\
  locks_info (locks_init st) = locks_info st /\
  requests (locks_init st) = requests st /\
  next_lock_id (locks_init st) = next_lock_id st.
Proof. unfold locks_init. by destruct (locks_initialized st). Qed.

Lemma lock_available_ext low high type st st' :
  device_orientation st = device_orientation st' -> locks st = locks st' ->
  lock_available low high type st = lock_available low high type st'.
Proof.
  intros Ho Hl. unfold lock_available, orientation_in_range.
  by rewrite Ho, Hl.
Qed.

(** The three ways a call of [rotation_lock] ends its first run. *)
Lemma rotation_lock_cases caller low high type st :
  let st0 := locks_init st in
  let lock := mk_lock (next_lock_id st) caller low high type in
  let st1 := set_next_lock_id (long_wrap (next_lock_id st + 1)) st0 in
  (args_invalid low high type = true /\
   rotation_lock caller low high type st = (st0, Some (- EINVAL))) \/
  (args_invalid low high type = false /\
   lock_available low high type st0 = true /\
   rotation_lock caller low high type st
     = (grant lock false st1, Some (next_lock_id st))) \/
  (args_invalid low high type = false /\
   lock_available low high type st0 = false /\
   rotation_lock caller low high type st
     = (suspend 0 (mk_waiter lock false false)
          (set_requests (mk_waiter lock false false :: requests st1) st1),
        None)).
Proof.
  intros st0 lock st1. unfold rotation_lock. fold st0.
  destruct (locks_init_fields st) as (_ & _ & _ & Hn). fold st0 in Hn.
  destruct (args_invalid low high type); [by left | right].
  unfold new_lock, rotation_lock_loop. rewrite Hn. simpl.
  rewrite (lock_available_ext low high type (set_requests _ _) st0) by done.
  destruct (lock_available low high type st0); [left | right];
    repeat split; done.
Qed.

(** C6: rotation_lock returns -EINVAL exactly when low or high is outside
    [0,360) or the type is neither ROT_READ nor ROT_WRITE; so do
    rotation_lock(400, 10, ROT_READ) and, 3 being neither of the two type
    values, rotation_lock(10, 20, 3).  On that return next_lock_id, the list
    of held locks, every counter, the wait queue and the orientation are as
    before the call: the state is the one before the call with
    locks_initialized set, since locks_init() has run ahead of the argument
    test.  (The state is one the program can be in: the id counter has not
    wrapped, and the counters are zero while locks_init has not run.) *)
Theorem rotation_lock_einval caller low high type st :
  0 <= next_lock_id st -> zeroed_until_init st ->
  (snd (rotation_lock caller low high type st) = Some (- EINVAL) <->
     low < 0 \/ 360 <= low \/ high < 0 \/ 360 <= high \/
     (type <> ROT_READ /\ type <> ROT_WRITE)) /\
  (snd (rotation_lock caller low high type st) = Some (- EINVAL) ->
     next_lock_id (fst (rotation_lock caller low high type st))
       = next_lock_id st /\
     locks_info (fst (rotation_lock caller low high type st))
       = locks_info st /\
     locks (fst (rotation_lock caller low high type st)) = locks st /\
     requests (fst (rotation_lock caller low high type st)) = requests st /\
     device_orientation (fst (rotation_lock caller low high type st))
       = device_orientation st /\
     fst (rotation_lock caller low high type st)
       = set_locks_initialized true st) /\
  snd (rotation_lock caller 400 10 ROT_READ st) = Some (- EINVAL) /\
  (ROT_READ <> 3 -> ROT_WRITE <> 3 ->
     snd (rotation_lock caller 10 20 3 st) = Some (- EINVAL)).
Proof.
  intros Hnext Hzero.
  assert (Hiff : snd (rotation_lock caller low high type st)
                   = Some (- EINVAL)
                 <-> args_invalid low high type = true).
  { destruct (rotation_lock_cases caller low high type st)
      as [[Hi ->] | [(Hi & _ & ->) | (Hi & _ & ->)]]; simpl;
      rewrite Hi; split; try done.
    intros [= H]. unfold EINVAL in H. lia. }
  split; [by rewrite Hiff, args_invalid_true|].
  split.
  - rewrite Hiff. intros Hi. unfold rotation_lock. rewrite Hi.
    cbn [fst]. by rewrite locks_init_flag.
  - split.
    + unfold rotation_lock.
      replace (args_invalid 400 10 ROT_READ) with true; [done|].
      symmetry. apply args_invalid_true. lia.
    + intros H1 H2. unfold rotation_lock.
      replace (args_invalid 10 20 3) with true; [done|].
      symmetry. apply args_invalid_true. lia.
Qed.

Lemma lock_active_inverse type s :
  (if type =? ROT_READ
   then dec_active_readers
          (if type =? ROT_READ then inc_active_readers s
           else inc_active_writers s)
   else dec_active_writers
          (if type =? ROT_READ then inc_active_readers s
           else inc_active_writers s)) = s.
Proof.
  destruct s as [r w ww].
  destruct (type =? ROT_READ);
    unfold dec_active_readers, inc_active_readers,
           dec_active_writers, inc_active_writers; simpl; f_equal; lia.
Qed.

(** The round trip of a call that is granted without sleeping: when
    rotation_lock returns a lock id at once, rotation_unlock of that id by
    the same caller returns 0 and leaves the counter table exactly as it was
    before the rotation_lock call, and after it a further rotation_unlock of
    the id, by any caller, returns -EINVAL.  (The state is one the program
    can be in: counters zero while locks_init has not run, and no held lock
    carries the id that next_lock_id is about to hand out.)  The call that
    sleeps first is covered further down, along a run of events. *)
Theorem lock_unlock_round_trip caller low high type st st1 i :
  zeroed_until_init st ->
  (forall l, l ∈ locks_info st -> lock_id l <> next_lock_id st) ->
  rotation_lock caller low high type st = (st1, Some i) -> 0 <= i ->
  exists st2,
    rotation_unlock caller i st1 = (st2, 0) /\
    locks st2 = locks st /\
    forall c, rotation_unlock c i st2 = (st2, - EINVAL).
Proof.
  intros Hzero Hfresh Hlock Hi.
  destruct (locks_init_fields st) as (_ & Hl & _ & _).
  destruct (rotation_lock_cases caller low high type st)
    as [[_ Heq] | [(Hv & _ & Heq) | (_ & _ & Heq)]];
    rewrite Heq in Hlock; [| |done].
  { injection Hlock as _ <-. unfold EINVAL in Hi. lia. }
  injection Hlock as <- <-.
  apply args_invalid_false in Hv as (Hlow & _ & _).
  unfold rotation_unlock.
  replace (next_lock_id st <? 0) with false by lia.
  simpl. rewrite !Z.eqb_refl. simpl.
  eexists. split; [reflexivity|]. split.
  - rewrite for_range_inverse by (lia || apply lock_active_inverse).
    by apply locks_init_zeroed.
  - intros c. unfold rotation_unlock.
    replace (next_lock_id st <? 0) with false by lia.
    simpl. rewrite Hl.
    apply find_lock_None in Hfresh. by rewrite Hfresh.
Qed.

(** ** Ranges that wrap past 359 *)

(** For a range with [high < low] no loop of the file runs: availability is
    the orientation test alone, and granting and releasing leave the
    counters alone. *)
Lemma lock_available_wrapped low high type st :
  high < low ->
  lock_available low high type st = covers low high (device_orientation st).
Proof.
  intros H. unfold lock_available.
  rewrite orientation_in_range_covers, !scan_range_empty by done.
  by destruct (covers _ _ _), (type =? ROT_READ).
Qed.

Lemma Ztype_neq : ROT_READ <> ROT_WRITE -> (ROT_WRITE =? ROT_READ) = false.
Proof. intros H. apply Z.eqb_neq. congruence. Qed.

(** C1 (the code departs from it): a writer holds degrees 0..5, so
    active_writers of degree 0 is 1; the range 350..10 covers degree 0; yet
    lock_available(350, 10, type) returns 1 for a read and for a write
    request, because its loops run from low to high and are empty when
    low > high. *)
Theorem lock_available_skips_wrapped_range :
  ROT_READ <> ROT_WRITE ->
  let st := run [RotationLock 1 0 5 ROT_WRITE] initial_state in
  active_writers (slot st 0) = 1 /\
  covers 350 10 0 = true /\
  lock_available 350 10 ROT_READ st = true /\
  lock_available 350 10 ROT_WRITE st = true.
Proof.
  intros Hne st.
  assert (Hst : st = mk_state 0 [mk_lock 0 1 0 5 ROT_WRITE]
                  (replicate 6 (mk_rw 0 1 0) ++ replicate 354 zero_lock)
                  true [] 1).
  { subst st. unfold run, exec, rotation_lock, args_invalid.
    rewrite Z.eqb_refl, Ztype_neq by done.
    unfold rotation_lock_loop, lock_available, grant. simpl.
    rewrite Ztype_neq by done. by vm_compute. }
  rewrite !lock_available_wrapped by lia.
  rewrite Hst. by vm_compute.
Qed.

Lemma rotation_lock_wrapped caller low high type st :
  args_invalid low high type = false -> high < low ->
  covers low high (device_orientation st) = true ->
  rotation_lock caller low high type st =
    (set_locks_info
       (mk_lock (next_lock_id st) caller low high type :: locks_info st)
       (set_next_lock_id (long_wrap (next_lock_id st + 1)) (locks_init st)),
     Some (next_lock_id st)).
Proof.
  intros Hv Hw Hc.
  destruct (locks_init_fields st) as (Ho & Hl & _ & _).
  destruct (rotation_lock_cases caller low high type st)
    as [[Hi _] | [(_ & _ & ->) | (_ & Ha & _)]].
  - congruence.
  - f_equal. unfold grant. simpl.
    rewrite for_range_empty by done. by rewrite Hl.
  - rewrite lock_available_wrapped, Ho in Ha by done. congruence.
Qed.

(** C2 (the code departs from it): with orientation 0, rotation_lock(350,
    10, ROT_READ) succeeds with id 0 and the range covers degree 355, but
    the counter table afterwards is the table from before, active_readers
    of degree 355 still 0; rotation_unlock(0) by the owner returns 0 and
    again changes no counter.  The increment and decrement loops run from
    low to high and are empty when low > high. *)
Theorem wrapped_lock_counts_nothing :
  let r1 := rotation_lock 1 350 10 ROT_READ initial_state in
  let r2 := rotation_unlock 1 0 (fst r1) in
  snd r1 = Some 0 /\
  covers 350 10 355 = true /\
  locks (fst r1) = locks initial_state /\
  active_readers (slot (fst r1) 355) = 0 /\
  snd r2 = 0 /\
  locks (fst r2) = locks initial_state.
Proof.
  intros r1 r2. subst r2 r1.
  rewrite rotation_lock_wrapped;
    [| apply args_invalid_false; lia | lia | done].
  by vm_compute.
Qed.

(** C3 (the code departs from it): with orientation 0, two callers ask for
    a write lock on 350..10 one after the other; both calls return at once,
    with ids 0 and 1, and both locks are held together, though each covers
    degree 0 (and every other degree of the range).  The availability test
    looks at no counter of a range with low > high, and the grant records
    none. *)
Theorem two_writers_hold_wrapped_range :
  let evs := [RotationLock 1 350 10 ROT_WRITE;
              RotationLock 2 350 10 ROT_WRITE] in
  granted evs initial_state = [0; 1] /\
  locks_info (run evs initial_state)
    = [mk_lock 1 2 350 10 ROT_WRITE; mk_lock 0 1 350 10 ROT_WRITE] /\
  covers 350 10 0 = true.
Proof.
  assert (Hv : args_invalid 350 10 ROT_WRITE = false)
    by (apply args_invalid_false; lia).
  simpl. rewrite Hv.
  rewrite rotation_lock_wrapped; [| done | lia | done].
  simpl. rewrite rotation_lock_wrapped; [| done | lia | done].
  done.
Qed.

(** The sibling path: a successful rotation_unlock leaves no queued call
    asleep. *)
Lemma rotation_unlock_wakes_all caller i st :
  snd (rotation_unlock caller i st) = 0 ->
  Forall (fun w => sleeping w = false)
         (requests (fst (rotation_unlock caller i st))).
Proof.
  unfold rotation_unlock.
  destruct (i <? 0); [done|].
  destruct (find_lock (locks_info st) i) as [l|]; [|done].
  destruct (negb (lock_pid l =? caller)); [done|].
  intros _. simpl. apply Forall_forall. intros w Hw.
  apply list_elem_of_fmap in Hw as (w' & -> & _). done.
Qed.

(** C4 (the code departs from it): with orientation 0 a caller asks for a
    read lock on 90..110 and goes to sleep; set_orientation(100) then
    succeeds.  Afterwards the request is satisfiable (lock_available is 1),
    but the caller is still asleep in the queue and the scheduler has
    nothing to run: set_orientation stores the value and returns without
    wake_up_all. *)
Theorem set_orientation_wakes_nobody :
  ROT_READ <> ROT_WRITE ->
  let st0 := run [RotationLock 1 90 110 ROT_READ] initial_state in
  let st := fst (set_orientation 100 st0) in
  snd (set_orientation 100 st0) = 0 /\
  lock_available 90 110 ROT_READ st0 = false /\
  lock_available 90 110 ROT_READ st = true /\
  requests st = [mk_waiter (mk_lock 0 1 90 110 ROT_READ) false true] /\
  exec (Resume 0) st = (st, None).
Proof.
  intros Hne st0 st.
  assert (Hrw : (ROT_READ =? ROT_WRITE) = false) by by apply Z.eqb_neq.
  assert (Hst0 : st0 = mk_state 0 [] (replicate 360 zero_lock) true
                   [mk_waiter (mk_lock 0 1 90 110 ROT_READ) false true] 1).
  { subst st0. unfold run, exec, rotation_lock, args_invalid.
    rewrite Z.eqb_refl. unfold rotation_lock_loop, lock_available, suspend.
    simpl. rewrite Hrw. by vm_compute. }
  subst st. rewrite Hst0. unfold lock_available. simpl.
  rewrite Z.eqb_refl. by vm_compute.
Qed.

(** ** Lock ids along a run *)

Lemma submseteq_NoDup (l k : list Z) : l ⊆+ k -> NoDup k -> NoDup l.
Proof.
  intros [k' Hk]%submseteq_Permutation Hnd. rewrite Hk in Hnd.
  by apply NoDup_app in Hnd as (? & _ & _).
Qed.

Lemma grant_fields lock ww st :
  locks_info (grant lock ww st) = lock :: locks_info st /\
  requests (grant lock ww st) = requests st /\
  next_lock_id (grant lock ww st) = next_lock_id st /\
  device_orientation (grant lock ww st) = device_orientation st.
Proof. unfold grant. by destruct ww. Qed.

Lemma suspend_ids k w st :
  requests st !! k = Some w ->
  registry_ids (suspend k w st) = registry_ids st /\
  queue_ids (suspend k w st) = queue_ids st /\
  next_lock_id (suspend k w st) = next_lock_id st.
Proof.
  intros Hk. unfold suspend, registry_ids, queue_ids.
  destruct ((lock_type (wait_lock w) =? ROT_WRITE) && negb (writer_waiting w));
    simpl; repeat split; try done;
    rewrite list_fmap_insert; simpl; apply list_insert_id;
    by rewrite list_lookup_fmap, Hk.
Qed.

(** The three ways a pass of the loop ends. *)
Lemma rotation_lock_loop_cases k st :
  rotation_lock_loop k st = (st, None) \/
  exists w, requests st !! k = Some w /\ sleeping w = false /\
    ((lock_available (lock_low (wait_lock w)) (lock_high (wait_lock w))
        (lock_type (wait_lock w)) st = true /\
      rotation_lock_loop k st
        = (grant (wait_lock w) (writer_waiting w)
             (set_requests (delete k (requests st)) st),
           Some (lock_id (wait_lock w)))) \/
     (lock_available (lock_low (wait_lock w)) (lock_high (wait_lock w))
        (lock_type (wait_lock w)) st = false /\
      rotation_lock_loop k st = (suspend k w st, None))).
Proof.
  unfold rotation_lock_loop.
  destruct (requests st !! k) as [w|]; [|by left].
  destruct (sleeping w) eqn:Hs; [by left | right].
  exists w. repeat split; try done.
  destruct (lock_available _ _ _ st); [left | right]; done.
Qed.

Lemma rotation_lock_loop_ids k st :
  held_ids (fst (rotation_lock_loop k st)) ≡ₚ held_ids st /\
  queue_ids (fst (rotation_lock_loop k st)) ⊆+ queue_ids st /\
  next_lock_id (fst (rotation_lock_loop k st)) = next_lock_id st /\
  (forall g, snd (rotation_lock_loop k st) = Some g ->
     g ∈ registry_ids (fst (rotation_lock_loop k st)) /\ g ∈ queue_ids st).
Proof.
  destruct (rotation_lock_loop_cases k st)
    as [-> | (w & Hk & _ & [[_ ->] | [_ ->]])]; cbn [fst snd].
  - done.
  - set (st1 := set_requests (delete k (requests st)) st).
    set (st2 := grant (wait_lock w) (writer_waiting w) st1).
    destruct (grant_fields (wait_lock w) (writer_waiting w) st1)
      as (Hl & Hr & Hn & _). fold st2 in Hl, Hr, Hn.
    assert (Hreg : registry_ids st2
                   = lock_id (wait_lock w) :: registry_ids st)
      by (unfold registry_ids; by rewrite Hl).
    assert (Hque : queue_ids st2 = delete k (queue_ids st)).
    { unfold queue_ids. rewrite Hr. simpl. apply list_fmap_delete. }
    assert (Hq : queue_ids st ≡ₚ
                 lock_id (wait_lock w) :: delete k (queue_ids st)).
    { apply delete_Permutation. unfold queue_ids.
      by rewrite list_lookup_fmap, Hk. }
    unfold held_ids. rewrite Hreg, Hque, Hn. repeat split.
    + rewrite Hq at 2. simpl. apply Permutation_middle.
    + rewrite Hq at 2. by apply submseteq_cons.
    + injection H as <-. left.
    + injection H as <-. rewrite Hq. left.
  - destruct (suspend_ids k w st Hk) as (Hl & Hr & Hn).
    unfold held_ids. rewrite Hl, Hr, Hn. done.
Qed.

Lemma exec_ids e st :
  held_ids (fst (exec e st)) ⊆+ issued_by e st ++ held_ids st /\
  queue_ids (fst (exec e st)) ⊆+ issued_by e st ++ queue_ids st /\
  (forall g, g ∈ granted_by e st ->
     g ∈ registry_ids (fst (exec e st)) /\
     g ∈ issued_by e st ++ queue_ids st) /\
  (issued_by e st = [] /\
   next_lock_id (fst (exec e st)) = next_lock_id st \/
   issued_by e st = [next_lock_id st] /\
   next_lock_id (fst (exec e st)) = long_wrap (next_lock_id st + 1)).
Proof.
  destruct e as [degree | caller low high type | caller i | k | k];
    cbn [exec issued_by granted_by].
  - (* set_orientation *)
    unfold set_orientation.
    destruct ((degree <? 0) || (degree >=? 360)); cbn [fst snd app];
      repeat split; try done; try (by left); no_elem.
  - (* rotation_lock *)
    unfold rotation_lock.
    destruct (locks_init_fields st) as (_ & Hl & Hr & Hn).
    destruct (args_invalid low high type); cbn [fst snd app].
    + unfold held_ids, registry_ids, queue_ids. rewrite Hl, Hr, Hn.
      repeat split; try done; try (by left); no_elem.
    + unfold new_lock. cbn [fst snd lock_id].
      set (n := next_lock_id (locks_init st)).
      set (w := mk_waiter (mk_lock n caller low high type) false false).
      set (st1 := set_next_lock_id (long_wrap (n + 1)) (locks_init st)).
      set (st2 := set_requests (w :: requests st1) st1).
      destruct (rotation_lock_loop_ids 0 st2) as (Hh & Hq & Hnx & Hg).
      assert (Hq2 : queue_ids st2 = n :: queue_ids st)
        by (unfold queue_ids; simpl; by rewrite Hr).
      assert (Hh2 : held_ids st2 ≡ₚ n :: held_ids st).
      { unfold held_ids. rewrite Hq2. unfold registry_ids. simpl.
        rewrite Hl. by rewrite <- Permutation_middle. }
      assert (Hg' : forall g, g ∈ option_list (snd (rotation_lock_loop 0 st2))
                -> snd (rotation_lock_loop 0 st2) = Some g).
      { intros g. destruct (snd (rotation_lock_loop 0 st2)); simpl.
        - by intros ->%list_elem_of_singleton.
        - intros; no_elem. }
      split; [by rewrite Hh, Hh2|].
      split; [by rewrite Hq, Hq2|].
      split.
      * intros g Hgr. apply Hg' in Hgr. rewrite <- Hq2. by apply Hg.
      * right. rewrite Hnx. simpl. subst n. by rewrite Hn.
  - (* rotation_unlock *)
    unfold rotation_unlock.
    destruct (i <? 0); cbn [fst snd app].
    { repeat split; try done; try (by left); no_elem. }
    destruct (find_lock (locks_info st) i) as [l|]; cbn [fst snd app].
    2: { repeat split; try done; try (by left); no_elem. }
    destruct (negb (lock_pid l =? caller)); cbn [fst snd app].
    { repeat split; try done; try (by left); no_elem. }
    set (st' := wake_up_all _).
    assert (Hq : queue_ids st' = queue_ids st).
    { unfold queue_ids. simpl. by rewrite <- list_fmap_compose. }
    assert (Hr : registry_ids st' = lock_id <$> list_del i (locks_info st))
      by done.
    unfold held_ids. rewrite Hq, Hr.
    repeat split; try done; try (by left); try no_elem.
    apply submseteq_app; [apply list_del_ids | done].
  - (* the scheduler runs a queued call *)
    destruct (rotation_lock_loop_ids k st) as (Hh & Hq & Hnx & Hg).
    split; [by rewrite Hh|]. split; [done|]. split; [|by left].
    intros g Hgr. apply Hg.
    destruct (snd (rotation_lock_loop k st)); simpl in Hgr.
    + by apply list_elem_of_singleton in Hgr as ->.
    + no_elem.
  - (* a signal *)
    cbn [fst snd app].
    set (st' := set_requests _ _).
    assert (Hq : queue_ids st' = queue_ids st).
    { unfold queue_ids. simpl.
      rewrite (list_fmap_alter _ wake (fun x => x))
        by (by apply Forall_forall).
      by apply list_alter_id. }
    assert (Hr : registry_ids st' = registry_ids st) by done.
    unfold held_ids. rewrite Hq, Hr.
    repeat split; try done; try (by left); no_elem.
Qed.

Lemma long_wrap_succ n : 0 <= n < LONG_MAX -> long_wrap (n + 1) = n + 1.
Proof.
  unfold long_wrap, LONG_MAX. intros H.
  rewrite Z.mod_small by lia. lia.
Qed.

Lemma granted_by_NoDup e st : NoDup (granted_by e st).
Proof.
  assert (Ho : forall o : option Z, NoDup (option_list o)).
  { intros [x|]; simpl; [apply NoDup_singleton | apply NoDup_nil_2]. }
  destruct e; simpl; try apply NoDup_nil_2; [|apply Ho].
  destruct (args_invalid low high type); [apply NoDup_nil_2 | apply Ho].
Qed.

Lemma ids_inv_ok st iss gr : ids_inv st iss gr -> ids_ok st.
Proof.
  intros (Hn & Hnd & Hr & _ & Hh & _). repeat split; try done.
  apply Forall_forall. intros i Hi.
  by apply (proj1 (Forall_forall _ _) Hr), Hh.
Qed.

Lemma ids_inv_initial : ids_inv initial_state [] [].
Proof.
  repeat split; simpl; try done;
    try apply NoDup_nil_2; try apply SSorted_nil; no_elem.
Qed.

Lemma exec_next_le e st :
  0 <= next_lock_id st < LONG_MAX ->
  next_lock_id st <= next_lock_id (fst (exec e st)) <= next_lock_id st + 1.
Proof.
  intros Hn.
  destruct (exec_ids e st) as (_ & _ & _ & [[_ ->] | [_ ->]]); [lia|].
  rewrite long_wrap_succ by done. lia.
Qed.

Lemma exec_ids_inv e st iss gr :
  ids_inv st iss gr -> next_lock_id st < LONG_MAX ->
  ids_inv (fst (exec e st)) (iss ++ issued_by e st) (gr ++ granted_by e st).
Proof.
  intros (Hn & Hnd & Hr & Hs & Hh & Hgn & Hg) Hmax.
  pose proof (proj1 (Forall_forall _ _) Hr) as Hr'.
  destruct (exec_ids e st) as (Eh & Eq & Eg & Ei).
  assert (Hfresh : next_lock_id st ∉ held_ids st).
  { intros Hin. apply Hh, Hr' in Hin. lia. }
  assert (Hnd' : NoDup (held_ids (fst (exec e st)))).
  { apply (submseteq_NoDup _ _ Eh).
    destruct Ei as [[-> _] | [-> _]]; simpl; [done|].
    by apply NoDup_cons. }
  assert (Hsplit : forall g, g ∈ registry_ids (fst (exec e st)) ->
                     g ∉ queue_ids (fst (exec e st))).
  { by apply NoDup_app in Hnd' as (_ & ? & _). }
  assert (Hiss : forall x, x ∈ issued_by e st -> x = next_lock_id st).
  { intros x Hx. destruct Ei as [[E _] | [E _]]; rewrite E in Hx.
    - no_elem.
    - by apply list_elem_of_singleton in Hx. }
  assert (Hq : forall x, x ∈ queue_ids (fst (exec e st)) ->
                 x = next_lock_id st \/ x ∈ queue_ids st).
  { intros x Hx. apply (elem_of_submseteq _ _ _ Hx) in Eq.
    apply elem_of_app in Eq as [Hx'|Hx']; [left; by apply Hiss | by right]. }
  assert (Hqh : forall x, x ∈ queue_ids st -> x ∈ iss).
  { intros x Hx. apply Hh. unfold held_ids. apply elem_of_app. by right. }
  assert (Hnext : 0 <= next_lock_id (fst (exec e st)) /\
            (forall i, 0 <= i < next_lock_id st ->
               0 <= i < next_lock_id (fst (exec e st))) /\
            (forall x, x ∈ issued_by e st ->
               0 <= x < next_lock_id (fst (exec e st)))).
  { pose proof (exec_next_le e st ltac:(lia)) as Hle.
    repeat split; try lia.
    - apply Hiss in H. lia.
    - pose proof (Hiss _ H) as ->. destruct Ei as [[E _] | [_ E]].
      + rewrite E in H. no_elem.
      + rewrite E, long_wrap_succ by lia. lia. }
  destruct Hnext as (Hn' & Hmono & Hnew).
  repeat split.
  - done.
  - done.
  - apply Forall_app. split; apply Forall_forall; intros x Hx; auto.
  - apply StronglySorted_app_2; [|done|].
    + intros x1 x2 H1 H2. apply Hr' in H1. apply Hiss in H2. lia.
    + destruct Ei as [[-> _] | [-> _]];
        [apply SSorted_nil | apply SSorted_cons; [apply SSorted_nil | done]].
  - intros i Hi. apply (elem_of_submseteq _ _ _ Hi) in Eh.
    apply elem_of_app. apply elem_of_app in Eh as [?|?]; auto.
  - apply NoDup_app. repeat split; [done| |apply granted_by_NoDup].
    intros x Hx Hx'. destruct (Hg x Hx) as [Hxi Hxq].
    apply Eg in Hx' as [_ Hx'].
    apply elem_of_app in Hx' as [Hx'|Hx']; [|done].
    apply Hiss in Hx'. apply Hr' in Hxi. lia.
  - apply elem_of_app in H as [Hx|Hx].
    + apply elem_of_app. left. by apply Hg.
    + apply Eg in Hx as [_ Hx]. apply elem_of_app.
      apply elem_of_app in Hx as [Hx|Hx]; auto.
  - apply elem_of_app in H as [Hx|Hx].
    + intros [Hq'|Hq']%Hq.
      * destruct (Hg g Hx) as [Hxi _]. apply Hr' in Hxi. lia.
      * by destruct (Hg g Hx).
    + apply Eg in Hx as [Hx _]. by apply Hsplit.
Qed.

Lemma run_app evs1 evs2 st : run (evs1 ++ evs2) st = run evs2 (run evs1 st).
Proof.
  revert st. induction evs1 as [|e evs1 IH]; intros st; simpl; [done|].
  by rewrite IH.
Qed.

Lemma run_next_le evs st :
  0 <= next_lock_id st ->
  next_lock_id st + Z.of_nat (length evs) <= LONG_MAX ->
  next_lock_id st <= next_lock_id (run evs st)
    <= next_lock_id st + Z.of_nat (length evs).
Proof.
  revert st. induction evs as [|e evs IH]; intros st H0 Hl; simpl in *; [lia|].
  pose proof (exec_next_le e st ltac:(lia)).
  specialize (IH (fst (exec e st))). lia.
Qed.

Lemma exec_unlock_fst caller i st :
  fst (exec (RotationUnlock caller i) st) = fst (rotation_unlock caller i st).
Proof. simpl. by destruct (rotation_unlock caller i st). Qed.

Lemma run_ids_inv evs st iss gr :
  ids_inv st iss gr ->
  next_lock_id st + Z.of_nat (length evs) <= LONG_MAX ->
  ids_inv (run evs st) (iss ++ issued evs st) (gr ++ granted evs st).
Proof.
  revert st iss gr.
  induction evs as [|e evs IH]; intros st iss gr Hinv Hlen; simpl.
  - by rewrite !app_nil_r.
  - simpl in Hlen. rewrite !app_assoc.
    assert (Hn : 0 <= next_lock_id st) by apply Hinv.
    apply IH; [apply exec_ids_inv; [done | lia]|].
    pose proof (exec_next_le e st ltac:(lia)). lia.
Qed.

Lemma exec_retired e st i :
  retired i st -> next_lock_id st < LONG_MAX ->
  retired i (fst (exec e st)) /\ (i ∉ issued_by e st) /\
  (i ∉ granted_by e st).
Proof.
  intros [Hi Hh] Hmax.
  pose proof (exec_next_le e st ltac:(lia)) as Hle.
  destruct (exec_ids e st) as (Eh & _ & Eg & Ei).
  assert (Hiss : i ∉ issued_by e st).
  { destruct Ei as [[-> _] | [-> _]].
    - apply not_elem_of_nil.
    - rewrite list_elem_of_singleton. lia. }
  repeat split; try lia; try done.
  - intros Hin. apply (elem_of_submseteq _ _ _ Hin) in Eh.
    apply elem_of_app in Eh as [?|?]; done.
  - intros Hin. apply Eg in Hin as [_ Hin].
    apply elem_of_app in Hin as [?|Hin]; [done|].
    apply Hh. unfold held_ids. apply elem_of_app. by right.
Qed.

Lemma run_retired evs st i :
  retired i st ->
  next_lock_id st + Z.of_nat (length evs) <= LONG_MAX ->
  retired i (run evs st) /\ (i ∉ issued evs st) /\ (i ∉ granted evs st).
Proof.
  revert st. induction evs as [|e evs IH]; intros st Hret Hlen; simpl.
  - repeat split; try apply Hret; apply not_elem_of_nil.
  - simpl in Hlen.
    assert (Hn : 0 <= next_lock_id st) by (destruct Hret; lia).
    destruct (exec_retired e st i Hret) as (Hret' & Hi & Hg); [lia|].
    pose proof (exec_next_le e st ltac:(lia)).
    destruct (IH _ Hret') as (? & ? & ?); [lia|].
    rewrite !not_elem_of_app. done.
Qed.

Lemma rotation_unlock_not_held caller i st :
  find_lock (locks_info st) i = None ->
  rotation_unlock caller i st = (st, - EINVAL).
Proof.
  intros H. unfold rotation_unlock. rewrite H. by destruct (i <? 0).
Qed.

(** A successful [rotation_unlock] found the lock and unlinked it. *)
Lemma rotation_unlock_success caller i st :
  snd (rotation_unlock caller i st) = 0 ->
  exists l, find_lock (locks_info st) i = Some l /\
    locks_info (fst (rotation_unlock caller i st))
      = list_del i (locks_info st) /\
    queue_ids (fst (rotation_unlock caller i st)) = queue_ids st /\
    next_lock_id (fst (rotation_unlock caller i st)) = next_lock_id st.
Proof.
  unfold rotation_unlock.
  destruct (i <? 0); [done|].
  destruct (find_lock (locks_info st) i) as [l|]; [|done].
  destruct (negb (lock_pid l =? caller)); [done|].
  intros _. exists l. repeat split.
  unfold queue_ids. simpl. by rewrite <- list_fmap_compose.
Qed.

Lemma rotation_unlock_retires caller i st iss gr :
  ids_inv st iss gr ->
  snd (rotation_unlock caller i st) = 0 ->
  retired i (fst (rotation_unlock caller i st)).
Proof.
  intros (Hn & Hnd & Hr & _ & Hh & _) Hok.
  destruct (rotation_unlock_success caller i st Hok)
    as (l & Hfind & Hl & Hq & Hnx).
  apply find_lock_Some in Hfind as [Hin <-].
  assert (Hreg : lock_id l ∈ registry_ids st)
    by (unfold registry_ids; by apply list_elem_of_fmap_2).
  apply NoDup_app in Hnd as (Hndr & Hsplit & _).
  split.
  - rewrite Hnx. apply (proj1 (Forall_forall _ _) Hr), Hh.
    unfold held_ids. apply elem_of_app. by left.
  - unfold held_ids, registry_ids. rewrite Hl, Hq.
    apply not_elem_of_app. split; [by apply list_del_gone | by apply Hsplit].
Qed.

(** C8: in a run from the initial state (short enough for next_lock_id not
    to reach LONG_MAX), the ids that the calls of rotation_lock take from
    next_lock_id are strictly increasing in the order of the calls; no two
    calls return the same id, and every id returned is one of those issued;
    and once rotation_unlock has released an id, no later call is issued or
    returns it, no held lock carries it, and rotation_unlock of it returns
    -EINVAL for every caller. *)
Theorem lock_ids_unique_increasing evs :
  Z.of_nat (length evs) <= LONG_MAX ->
  StronglySorted Z.lt (issued evs initial_state) /\
  NoDup (granted evs initial_state) /\
  (forall g, g ∈ granted evs initial_state -> g ∈ issued evs initial_state) /\
  (forall evs1 caller i evs2,
     evs = evs1 ++ RotationUnlock caller i :: evs2 ->
     snd (rotation_unlock caller i (run evs1 initial_state)) = 0 ->
     (i ∉ issued evs2
            (fst (rotation_unlock caller i (run evs1 initial_state)))) /\
     (i ∉ granted evs2
            (fst (rotation_unlock caller i (run evs1 initial_state)))) /\
     find_lock (locks_info (run evs initial_state)) i = None /\
     forall c,
       rotation_unlock c i (run evs initial_state)
         = (run evs initial_state, - EINVAL)).
Proof.
  intros Hlen.
  pose proof (run_ids_inv evs initial_state [] [] ids_inv_initial
                ltac:(simpl; lia)) as Hinv.
  simpl in Hinv.
  split; [apply Hinv|]. split; [apply Hinv|]. split.
  { intros g Hg. by apply Hinv. }
  intros evs1 caller i evs2 -> Hok.
  rewrite length_app in Hlen. simpl in Hlen.
  pose proof (run_ids_inv evs1 initial_state [] [] ids_inv_initial
                ltac:(simpl; lia)) as Hinv1.
  set (st1 := run evs1 initial_state) in *.
  pose proof (rotation_unlock_retires caller i st1 _ _ Hinv1 Hok) as Hret.
  destruct (run_next_le evs1 initial_state) as [_ Hn1]; [done | simpl; lia |].
  fold st1 in Hn1. simpl in Hn1.
  destruct (rotation_unlock_success caller i st1 Hok) as (_ & _ & _ & _ & Hnx).
  destruct (run_retired evs2 _ i Hret) as ([_ Hheld] & Hiss & Hgr); [lia|].
  assert (Hfind : find_lock (locks_info (run (evs1 ++ RotationUnlock caller i
                                                 :: evs2) initial_state)) i
                  = None).
  { rewrite run_app. cbn [run]. rewrite exec_unlock_fst. fold st1.
    apply find_lock_None. intros x Hx Hid. apply Hheld.
    unfold held_ids. apply elem_of_app. left.
    apply (list_elem_of_fmap_2 lock_id) in Hx. by rewrite Hid in Hx. }
  repeat split; try done.
  intros c. by apply rotation_unlock_not_held.
Qed.

(** ** States of a run *)

Lemma exec_length e st :
  length (locks (fst (exec e st))) = length (locks st).
Proof.
  assert (Hloop : forall k st,
            length (locks (fst (rotation_lock_loop k st)))
            = length (locks st)).
  { intros k st'.
    destruct (rotation_lock_loop_cases k st')
      as [-> | (w & _ & _ & [[_ ->] | [_ ->]])]; simpl; [done| |].
    - unfold grant. destruct (writer_waiting w); simpl;
        by rewrite !length_for_range.
    - unfold suspend.
      destruct ((lock_type (wait_lock w) =? ROT_WRITE)
                && negb (writer_waiting w)); simpl;
        by rewrite ?length_for_range. }
  destruct e as [degree | caller low high type | caller i | k | k]; simpl.
  - unfold set_orientation.
    by destruct ((degree <? 0) || (degree >=? 360)).
  - assert (Hi : length (locks (locks_init st)) = length (locks st)).
    { unfold locks_init. destruct (locks_initialized st); [done|].
      cbn [locks set_locks set_locks_initialized].
      by rewrite length_for_range. }
    unfold rotation_lock. destruct (args_invalid low high type); [done|].
    simpl. by rewrite Hloop.
  - unfold rotation_unlock. destruct (i <? 0); [done|].
    destruct (find_lock (locks_info st) i) as [l|]; [|done].
    destruct (negb (lock_pid l =? caller)); simpl; [done|].
    by rewrite length_for_range.
  - apply Hloop.
  - done.
Qed.

Lemma rotation_lock_loop_initialized k st :
  locks_initialized (fst (rotation_lock_loop k st)) = locks_initialized st.
Proof.
  destruct (rotation_lock_loop_cases k st)
    as [-> | (w & _ & _ & [[_ ->] | [_ ->]])]; cbn [fst]; [done| |].
  - unfold grant. by destruct (writer_waiting w).
  - unfold suspend.
    by destruct ((lock_type (wait_lock w) =? ROT_WRITE)
                 && negb (writer_waiting w)).
Qed.

Lemma rotation_lock_initialized caller low high type st :
  locks_initialized (fst (rotation_lock caller low high type st)) = true.
Proof.
  assert (Hi : locks_initialized (locks_init st) = true)
    by (unfold locks_init; by destruct (locks_initialized st) eqn:E).
  unfold rotation_lock. destruct (args_invalid low high type); [done|].
  unfold new_lock. by rewrite rotation_lock_loop_initialized.
Qed.

Lemma rotation_unlock_initialized caller i st :
  locks_initialized (fst (rotation_unlock caller i st))
  = locks_initialized st.
Proof.
  unfold rotation_unlock. destruct (i <? 0); [done|].
  destruct (find_lock (locks_info st) i) as [l|]; [|done].
  by destruct (negb (lock_pid l =? caller)).
Qed.

Lemma exec_untouched e st :
  untouched st -> untouched (fst (exec e st)).
Proof.
  unfold untouched. intros H.
  destruct e as [degree | caller low high type | caller i | k | k].
  - cbn [exec]. unfold set_orientation.
    by destruct ((degree <? 0) || (degree >=? 360)).
  - cbn [exec]. by rewrite rotation_lock_initialized.
  - rewrite exec_unlock_fst, rotation_unlock_initialized. intros Hf.
    destruct (H Hf) as (Hl & Hi & Hq).
    rewrite rotation_unlock_not_held by (by rewrite Hi). done.
  - cbn [exec]. rewrite rotation_lock_loop_initialized. intros Hf.
    destruct (H Hf) as (Hl & Hi & Hq).
    unfold rotation_lock_loop. by rewrite Hq.
  - cbn [exec]. intros Hf. destruct (H Hf) as (Hl & Hi & Hq). cbn [fst] in *.
    unfold set_requests; cbn [locks locks_info requests]. by rewrite Hq.
Qed.

Lemma untouched_zeroed st : untouched st -> zeroed_until_init st.
Proof. intros H Hf. by destruct (H Hf). Qed.

(** In a run from the initial state the hypotheses of the theorems on
    [rotation_lock] hold. *)
Lemma run_well_formed evs :
  Z.of_nat (length evs) <= LONG_MAX ->
  zeroed_until_init (run evs initial_state) /\
  ids_ok (run evs initial_state) /\
  length (locks (run evs initial_state)) = 360%nat.
Proof.
  intros Hlen. split; [|split].
  - apply untouched_zeroed.
    assert (H : forall st, untouched st -> untouched (run evs st)).
    { clear. induction evs as [|e evs IH]; intros st H; simpl; [done|].
      by apply IH, exec_untouched. }
    apply H. by intros _.
  - eapply ids_inv_ok, (run_ids_inv evs initial_state [] []);
      [apply ids_inv_initial | simpl; lia].
  - assert (H : forall st, length (locks (run evs st)) = length (locks st)).
    { clear. induction evs as [|e evs IH]; intros st; simpl; [done|].
      rewrite IH. apply exec_length. }
    by rewrite H.
Qed.

(** ** Counters and the locks they stand for *)

Lemma for_range_slot low high body tbl d :
  0 <= low -> 0 <= d -> (Z.to_nat d < length tbl)%nat ->
  for_range low high body tbl !!! Z.to_nat d =
    if (low <=? d) && (d <=? high) then body (tbl !!! Z.to_nat d)
    else tbl !!! Z.to_nat d.
Proof.
  intros Hl Hd Hlen.
  rewrite !list_lookup_total_alt, for_range_lookup by done.
  destruct (lookup_lt_is_Some_2 tbl _ Hlen) as [x Hx]. rewrite Hx.
  case_decide.
  - by replace ((low <=? d) && (d <=? high)) with true by lia.
  - by replace ((low <=? d) && (d <=? high)) with false by lia.
Qed.

Lemma tally_nonneg {A} (p : A -> bool) l : 0 <= tally p l.
Proof. induction l as [|x l IH]; simpl; [lia|]. destruct (p x); lia. Qed.

Lemma tally_fmap {A B} (f : A -> B) (p : B -> bool) l :
  tally p (f <$> l) = tally (fun x => p (f x)) l.
Proof.
  induction l as [|x l IH]; [done|].
  rewrite fmap_cons. simpl. by rewrite IH.
Qed.

Lemma tally_delete {A} (p : A -> bool) l k x :
  l !! k = Some x ->
  tally p l = (if p x then 1 else 0) + tally p (delete k l).
Proof.
  revert k. induction l as [|y l IH]; intros [|k] H; simpl in *; try done.
  - by injection H as ->.
  - rewrite (IH k H). lia.
Qed.

Lemma tally_insert {A} (p : A -> bool) l k x y :
  l !! k = Some x ->
  tally p (<[k:=y]> l)
  = tally p l - (if p x then 1 else 0) + (if p y then 1 else 0).
Proof.
  revert k. induction l as [|z l IH]; intros [|k] H; simpl in *; try done.
  - injection H as ->. lia.
  - rewrite (IH k H). lia.
Qed.

Lemma tally_alter {A} (p : A -> bool) f l k :
  (forall x, p (f x) = p x) -> tally p (alter f k l) = tally p l.
Proof.
  intros H. revert k.
  induction l as [|z l IH]; intros [|k]; simpl; try done.
  - by rewrite H.
  - f_equal. apply IH.
Qed.

Lemma tally_list_del (p : lock_info -> bool) l i x :
  find_lock l i = Some x ->
  tally p l = (if p x then 1 else 0) + tally p (list_del i l).
Proof.
  induction l as [|y l IH]; simpl; [done|].
  destruct (lock_id y =? i).
  - by intros [= ->].
  - intros H. simpl. rewrite (IH H). lia.
Qed.

Lemma tally_lookup {A} (p : A -> bool) l k x :
  l !! k = Some x -> p x = true -> 1 <= tally p l.
Proof.
  intros Hk Hp. rewrite (tally_delete p l k x Hk), Hp.
  pose proof (tally_nonneg p (delete k l)). lia.
Qed.

Lemma list_del_subset i (l : list lock_info) x :
  x ∈ list_del i l -> x ∈ l.
Proof.
  induction l as [|y l IH]; simpl; [done|].
  destruct (lock_id y =? i).
  - by right.
  - intros [->|H]%elem_of_cons; [left | right; auto].
Qed.

Lemma grant_slot lock ww st d :
  0 <= lock_low lock -> 0 <= d -> (Z.to_nat d < length (locks st))%nat ->
  slot (grant lock ww st) d =
    if visits lock d then
      (if lock_type lock =? ROT_READ
       then inc_active_readers
              (if ww then dec_waiting_writers (slot st d) else slot st d)
       else inc_active_writers
              (if ww then dec_waiting_writers (slot st d) else slot st d))
    else slot st d.
Proof.
  intros Hl Hd Hlen. unfold grant, slot, visits.
  destruct ww; cbn [locks set_locks set_locks_info].
  - rewrite !for_range_slot by (by rewrite ?length_for_range).
    by destruct ((lock_low lock <=? d) && (d <=? lock_high lock)).
  - rewrite !for_range_slot by done.
    by destruct ((lock_low lock <=? d) && (d <=? lock_high lock)).
Qed.

Lemma suspend_slot k w st d :
  0 <= lock_low (wait_lock w) -> 0 <= d ->
  (Z.to_nat d < length (locks st))%nat ->
  slot (suspend k w st) d =
    if (lock_type (wait_lock w) =? ROT_WRITE) && negb (writer_waiting w)
       && visits (wait_lock w) d
    then inc_waiting_writers (slot st d) else slot st d.
Proof.
  intros Hl Hd Hlen. unfold suspend, slot, visits.
  destruct ((lock_type (wait_lock w) =? ROT_WRITE) && negb (writer_waiting w));
    cbn [locks set_locks set_requests andb]; [|done].
  by rewrite for_range_slot by done.
Qed.

Lemma rotation_lock_loop_counters_inv k st :
  counters_inv st -> counters_inv (fst (rotation_lock_loop k st)).
Proof.
  intros Hinv. pose proof Hinv as (Hlen & Hun & Hreg & Hque & Hcnt & Hex).
  destruct (rotation_lock_loop_cases k st)
    as [-> | (w & Hk & _ & [[Hav ->] | [_ ->]])]; cbn [fst]; [done| |].
  - (* granted *)
    set (st1 := set_requests (delete k (requests st)) st).
    set (lock := wait_lock w) in *.
    assert (Hlow : 0 <= lock_low lock).
    { apply (proj1 (Forall_forall _ _) Hque w). by eapply list_elem_of_lookup_2. }
    assert (Hinit : locks_initialized st = true).
    { destruct (locks_initialized st) eqn:E; [done|].
      destruct (Hun E) as (_ & _ & Hq). by rewrite Hq in Hk. }
    destruct (grant_fields lock (writer_waiting w) st1) as (Hl & Hr & _ & _).
    assert (Hslot : forall d, 0 <= d < 360 ->
              slot (grant lock (writer_waiting w) st1) d =
              if visits lock d then
                (if lock_type lock =? ROT_READ
                 then inc_active_readers
                        (if writer_waiting w
                         then dec_waiting_writers (slot st d) else slot st d)
                 else inc_active_writers
                        (if writer_waiting w
                         then dec_waiting_writers (slot st d) else slot st d))
              else slot st d).
    { intros d Hd. rewrite grant_slot; [done | done | lia |].
      cbn [st1 locks set_requests]. lia. }
    apply lock_available_true in Hav as [_ Hfree].
    split; [|split; [|split; [|split; [|split]]]].
    + unfold grant. destruct (writer_waiting w);
        cbn [locks set_locks set_locks_info st1 set_requests];
        by rewrite !length_for_range.
    + intros Hf. unfold grant in Hf.
      destruct (writer_waiting w); cbn in Hf; congruence.
    + rewrite Hl. by apply Forall_cons.
    + rewrite Hr. cbn [st1 requests set_requests]. by apply Forall_delete.
    + intros d Hd. rewrite Hslot, Hcnt by done. unfold counts.
      rewrite Hl, Hr. cbn [st1 requests set_requests locks_info tally].
      rewrite (tally_delete _ (requests st) k w Hk). fold lock.
      destruct (visits lock d), (lock_type lock =? ROT_READ),
        (writer_waiting w); slot_arith.
    + intros d Hd. rewrite Hslot by done.
      specialize (Hex d Hd). specialize (Hfree d).
      unfold visits in *.
      destruct ((lock_low lock <=? d) && (d <=? lock_high lock)) eqn:Hv;
        [|done].
      specialize (Hfree ltac:(lia)). fold lock in Hfree.
      destruct (lock_type lock =? ROT_READ), (writer_waiting w);
        slot_arith.
  - (* asleep again *)
    set (lock := wait_lock w) in *.
    assert (Hlow : 0 <= lock_low lock).
    { apply (proj1 (Forall_forall _ _) Hque w). by eapply list_elem_of_lookup_2. }
    assert (Hinit : locks_initialized st = true).
    { destruct (locks_initialized st) eqn:E; [done|].
      destruct (Hun E) as (_ & _ & Hq). by rewrite Hq in Hk. }
    assert (Hslot : forall d, 0 <= d < 360 ->
              slot (suspend k w st) d =
              if (lock_type lock =? ROT_WRITE) && negb (writer_waiting w)
                 && visits lock d
              then inc_waiting_writers (slot st d) else slot st d).
    { intros d Hd. apply suspend_slot; [done | lia | lia]. }
    assert (Hfields : locks_info (suspend k w st) = locks_info st /\
              locks_initialized (suspend k w st) = locks_initialized st /\
              length (locks (suspend k w st)) = length (locks st) /\
              requests (suspend k w st) =
                <[k := mk_waiter lock
                         (if (lock_type lock =? ROT_WRITE)
                             && negb (writer_waiting w)
                          then true else writer_waiting w) true]>
                  (requests st)).
    { unfold suspend. fold lock.
      destruct ((lock_type lock =? ROT_WRITE) && negb (writer_waiting w));
        cbn [locks_info locks_initialized locks requests set_requests
             set_locks]; by rewrite ?length_for_range. }
    destruct Hfields as (Hl & Hi & Hlen' & Hr).
    split; [|split; [|split; [|split; [|split]]]].
    + lia.
    + intros Hf. congruence.
    + by rewrite Hl.
    + rewrite Hr. by apply Forall_insert.
    + intros d Hd. rewrite Hslot, Hcnt by done. unfold counts.
      rewrite Hl, Hr, (tally_insert _ _ _ _ _ Hk).
      cbn [writer_waiting wait_lock]. fold lock.
      destruct (lock_type lock =? ROT_WRITE), (writer_waiting w),
        (visits lock d); slot_arith.
    + intros d Hd. rewrite Hslot by done. specialize (Hex d Hd).
      destruct ((lock_type lock =? ROT_WRITE) && negb (writer_waiting w)
                && visits lock d); [|done].
      slot_arith.
Qed.

(** The two ways [rotation_unlock] ends. *)
Lemma rotation_unlock_cases caller i st :
  (fst (rotation_unlock caller i st) = st /\
   snd (rotation_unlock caller i st) <> 0) \/
  exists l, find_lock (locks_info st) i = Some l /\
    rotation_unlock caller i st =
      (wake_up_all
         (set_locks
            (for_range (lock_low l) (lock_high l)
               (fun s => if lock_type l =? ROT_READ then dec_active_readers s
                         else dec_active_writers s)
               (locks st))
            (set_locks_info (list_del i (locks_info st)) st)), 0).
Proof.
  unfold rotation_unlock.
  destruct (i <? 0); [by left|].
  destruct (find_lock (locks_info st) i) as [l|]; [|by left].
  destruct (negb (lock_pid l =? caller)); [by left|].
  right. by exists l.
Qed.

Lemma exec_counters_inv e st :
  counters_inv st -> counters_inv (fst (exec e st)).
Proof.
  intros Hinv. pose proof Hinv as (Hlen & Hun & Hreg & Hque & Hcnt & Hex).
  assert (Hun' : untouched (fst (exec e st))) by by apply exec_untouched.
  destruct e as [degree | caller low high type | caller i | k | k].
  - (* set_orientation *)
    cbn [exec]. unfold set_orientation.
    by destruct ((degree <? 0) || (degree >=? 360)).
  - (* rotation_lock *)
    cbn [exec] in *. unfold rotation_lock in *.
    destruct (locks_init_fields st) as (_ & Hl & Hr & _).
    assert (Hi : locks_initialized (locks_init st) = true)
      by (unfold locks_init; by destruct (locks_initialized st) eqn:E).
    assert (Hinv0 : counters_inv (locks_init st)).
    { assert (Hlk : locks (locks_init st) = locks st)
        by by apply locks_init_zeroed, untouched_zeroed.
      split; [by rewrite Hlk|].
      split; [intros Hf; congruence|].
      split; [by rewrite Hl|]. split; [by rewrite Hr|].
      unfold slot, counts. rewrite Hlk, Hl, Hr. by split. }
    destruct (args_invalid low high type) eqn:Hv; [done|].
    apply args_invalid_false in Hv as (Hlow & _ & _).
    apply rotation_lock_loop_counters_inv.
    destruct Hinv0 as (Hlen0 & _ & Hreg0 & Hque0 & Hcnt0 & Hex0).
    unfold new_lock.
    split; [done|]. split; [intros Hf; cbn in Hf; congruence|].
    split; [done|]. split.
    { apply Forall_cons. split; [cbn; lia | done]. }
    split; [|done].
    intros d Hd. specialize (Hcnt0 d Hd). unfold slot, counts in *.
    cbn [locks locks_info requests set_requests set_next_lock_id tally
         writer_waiting andb].
    by rewrite Hcnt0.
  - (* rotation_unlock *)
    rewrite exec_unlock_fst in *.
    destruct (rotation_unlock_cases caller i st)
      as [[-> _] | (l & Hfind & Heq)]; [done|].
    rewrite Heq in *. cbn [fst] in *. clear Heq.
    destruct (find_lock_Some _ _ _ Hfind) as [Hin _].
    assert (Hlow : 0 <= lock_low l)
      by by apply (proj1 (Forall_forall _ _) Hreg).
    set (st' := wake_up_all _) in *.
    assert (Hslot : forall d, 0 <= d < 360 ->
              slot st' d =
              if visits l d then
                (if lock_type l =? ROT_READ
                 then dec_active_readers (slot st d)
                 else dec_active_writers (slot st d))
              else slot st d).
    { intros d Hd. unfold slot, visits. cbn.
      rewrite for_range_slot by lia.
      by destruct ((lock_low l <=? d) && (d <=? lock_high l)). }
    split; [cbn; by rewrite length_for_range|]. split; [done|].
    split.
    { apply Forall_forall. intros x Hx.
      apply (proj1 (Forall_forall _ _) Hreg), (list_del_subset i).
      exact Hx. }
    split.
    { cbn. apply Forall_fmap. by eapply Forall_impl. }
    split.
    + intros d Hd. rewrite Hslot, Hcnt by done. unfold counts.
      cbn [st' wake_up_all set_requests set_locks set_locks_info
           locks_info requests].
      rewrite !(tally_list_del _ (locks_info st) i l Hfind), tally_fmap.
      cbn [wake writer_waiting wait_lock].
      destruct (visits l d), (lock_type l =? ROT_READ); slot_arith.
    + intros d Hd. rewrite Hslot by done. specialize (Hex d Hd).
      destruct (visits l d), (lock_type l =? ROT_READ); slot_arith.
  - (* the scheduler runs a queued call *)
    by apply rotation_lock_loop_counters_inv.
  - (* a signal *)
    cbn [exec fst] in *.
    split; [done|]. split; [done|]. split; [done|]. split.
    { cbn. by apply Forall_alter. }
    split; [|done].
    intros d Hd. specialize (Hcnt d Hd). unfold slot, counts in *.
    cbn [locks locks_info requests set_requests].
    by rewrite tally_alter by done.
Qed.

Lemma counters_inv_initial : counters_inv initial_state.
Proof.
  split; [done|]. split; [by intros _|].
  split; [by apply Forall_nil|]. split; [by apply Forall_nil|].
  assert (Hs : forall d, 0 <= d < 360 -> slot initial_state d = zero_lock).
  { intros d Hd. unfold slot. cbn [locks initial_state].
    apply lookup_total_replicate_2. lia. }
  split; intros d Hd; rewrite Hs by done; [done|].
  unfold exclusive. cbn. lia.
Qed.

Lemma run_counters_inv evs st :
  counters_inv st -> counters_inv (run evs st).
Proof.
  revert st. induction evs as [|e evs IH]; intros st H; simpl; [done|].
  by apply IH, exec_counters_inv.
Qed.

(** In every state of a run, the counters of a degree are the numbers of
    held read locks, held write locks and registered waiting writers whose
    range [low..high] contains the degree without wrapping; none is
    negative, at most one writer is counted, and none next to a reader. *)
Theorem counters_count_unwrapped_locks evs d :
  0 <= d < 360 ->
  slot (run evs initial_state) d = counts (run evs initial_state) d /\
  0 <= active_readers (slot (run evs initial_state) d) /\
  0 <= active_writers (slot (run evs initial_state) d) <= 1 /\
  0 <= waiting_writers (slot (run evs initial_state) d) /\
  (active_writers (slot (run evs initial_state) d) = 1 ->
   active_readers (slot (run evs initial_state) d) = 0).
Proof.
  intros Hd.
  destruct (run_counters_inv evs _ counters_inv_initial)
    as (_ & _ & _ & _ & Hcnt & Hex).
  specialize (Hcnt d Hd). destruct (Hex d Hd) as [Hw Hr].
  split; [done|]. rewrite Hcnt in *. unfold counts in *.
  cbn [active_readers active_writers waiting_writers] in *.
  pose proof (tally_nonneg
    (fun l => (lock_type l =? ROT_READ) && visits l d)
    (locks_info (run evs initial_state))).
  pose proof (tally_nonneg
    (fun l => negb (lock_type l =? ROT_READ) && visits l d)
    (locks_info (run evs initial_state))).
  pose proof (tally_nonneg
    (fun w => writer_waiting w && visits (wait_lock w) d)
    (requests (run evs initial_state))).
  lia.
Qed.

(** Mutual exclusion as far as the code provides it: in every state of a
    run, a held lock that is not a read lock and whose range [low..high]
    contains degree [d] without wrapping is the only held lock with such a
    range. *)
Theorem unwrapped_writer_is_alone evs d j k l1 l2 :
  0 <= d < 360 ->
  locks_info (run evs initial_state) !! j = Some l1 ->
  locks_info (run evs initial_state) !! k = Some l2 ->
  lock_type l1 <> ROT_READ ->
  visits l1 d = true -> visits l2 d = true -> j = k.
Proof.
  intros Hd Hj Hk Hw Hv1 Hv2.
  destruct (decide (j = k)) as [|Hjk]; [done|]. exfalso.
  destruct (run_counters_inv evs _ counters_inv_initial)
    as (_ & _ & _ & _ & Hcnt & Hex).
  specialize (Hcnt d Hd). destruct (Hex d Hd) as [Hw1 Hr1].
  rewrite Hcnt in *. unfold counts in *.
  cbn [active_readers active_writers] in *.
  set (reg := locks_info (run evs initial_state)) in *.
  set (pr := fun l => (lock_type l =? ROT_READ) && visits l d) in *.
  set (pw := fun l => negb (lock_type l =? ROT_READ) && visits l d) in *.
  assert (Hpw1 : pw l1 = true).
  { unfold pw. rewrite Hv1. by apply Z.eqb_neq in Hw as ->. }
  assert (Hk' : exists k', delete j reg !! k' = Some l2).
  { destruct (decide (k < j)%nat).
    - exists k. by rewrite list_lookup_delete_lt.
    - exists (pred k). rewrite list_lookup_delete_ge by lia.
      by replace (S (pred k)) with k by lia. }
  destruct Hk' as [k' Hk'].
  rewrite (tally_delete pw reg j l1 Hj), Hpw1 in Hw1, Hr1.
  pose proof (tally_nonneg pw (delete j reg)) as Hn.
  destruct (lock_type l2 =? ROT_READ) eqn:Ht.
  - assert (1 <= tally pr reg); [|lia].
    apply (tally_lookup pr reg k l2 Hk). unfold pr. by rewrite Ht, Hv2.
  - assert (1 <= tally pw (delete j reg)); [|lia].
    apply (tally_lookup pw _ k' l2 Hk'). unfold pw. by rewrite Ht, Hv2.
Qed.

(** ** Further properties of the code *)

(** *** lock_available and locks_init *)

(** lock_available returns 1 exactly when the orientation passes the
    wrap-aware range test and, on every degree from low to high as the loop
    counts them (none when low > high), no counter the type looks at is
    positive: active_writers and waiting_writers for ROT_READ,
    active_readers and active_writers for any other type. *)
Theorem lock_available_iff low high type st :
  lock_available low high type st = true <->
  ((low <= high /\ low <= device_orientation st <= high) \/
   (high < low /\
    (low <= device_orientation st \/ device_orientation st <= high))) /\
  (forall d, low <= d <= high ->
     (type = ROT_READ ->
        active_writers (slot st d) <= 0 /\ waiting_writers (slot st d) <= 0)
     /\
     (type <> ROT_READ ->
        active_readers (slot st d) <= 0 /\ active_writers (slot st d) <= 0)).
Proof.
  rewrite lock_available_true.
  assert (Hc : covers low high (device_orientation st) = true <->
            (low <= high /\ low <= device_orientation st <= high) \/
            (high < low /\
             (low <= device_orientation st \/ device_orientation st <= high))).
  { unfold covers. destruct (low <=? high) eqn:E.
    - rewrite andb_true_iff. lia.
    - rewrite orb_true_iff. lia. }
  rewrite Hc. apply and_iff_compat_l.
  split; intros H d Hd; specialize (H d Hd).
  - destruct (type =? ROT_READ) eqn:E.
    + apply Z.eqb_eq in E. split; [intros _ | done].
      unfold reader_busy in H. apply orb_false_iff in H. lia.
    + apply Z.eqb_neq in E. split; [done | intros _].
      unfold writer_busy in H. apply orb_false_iff in H. lia.
  - destruct H as [Hr Hw]. destruct (type =? ROT_READ) eqn:E.
    + apply Z.eqb_eq in E. specialize (Hr E).
      unfold reader_busy. apply orb_false_iff. lia.
    + apply Z.eqb_neq in E. specialize (Hw E).
      unfold writer_busy. apply orb_false_iff. lia.
Qed.

Lemma for_range_fill z tbl :
  length tbl = 360%nat ->
  for_range 0 359 (fun _ => z) tbl = replicate 360 z.
Proof.
  intros Hlen. unfold for_range.
  change (Z.to_nat (359 - 0 + 1)) with 360%nat.
  apply list_eq. intros j. rewrite for_each_lookup by lia.
  change (Z.to_nat 0) with 0%nat.
  destruct (decide (j < 360)%nat) as [Hj|Hj].
  - rewrite lookup_replicate_2 by done.
    destruct (lookup_lt_is_Some_2 tbl j ltac:(lia)) as [x ->].
    case_decide; [done | lia].
  - rewrite (lookup_ge_None_2 tbl j) by lia.
    rewrite (lookup_ge_None_2 (replicate 360 z) j)
      by (rewrite length_replicate; lia).
    by case_decide.
Qed.

(** locks_init runs its loop once: on a table of 360 slots that has not
    been initialised it sets every counter to 0, whatever was there; once
    the flag is set it changes nothing, so a second call is a no-op.  It
    never touches the orientation, the held locks, the queue or the id
    counter. *)
Theorem locks_init_once st :
  locks_initialized (locks_init st) = true /\
  locks_init (locks_init st) = locks_init st /\
  (locks_initialized st = true -> locks_init st = st) /\
  (locks_initialized st = false -> length (locks st) = 360%nat ->
     locks (locks_init st) = replicate 360 zero_lock) /\
  device_orientation (locks_init st) = device_orientation st /\
  locks_info (locks_init st) = locks_info st /\
  requests (locks_init st) = requests st /\
  next_lock_id (locks_init st) = next_lock_id st.
Proof.
  assert (Hi : locks_initialized (locks_init st) = true)
    by (unfold locks_init; by destruct (locks_initialized st) eqn:E).
  split; [done|]. split.
  { unfold locks_init at 1. by rewrite Hi. }
  split.
  { intros H. unfold locks_init. by rewrite H. }
  split.
  { intros H Hlen. unfold locks_init. rewrite H.
    cbn [locks set_locks set_locks_initialized].
    by apply for_range_fill. }
  apply locks_init_fields.
Qed.

(** *** The orientation *)

Lemma exec_orientation e st :
  (forall degree, e <> SetOrientation degree) ->
  device_orientation (fst (exec e st)) = device_orientation st.
Proof.
  assert (Hloop : forall k st',
            device_orientation (fst (rotation_lock_loop k st'))
            = device_orientation st').
  { intros k st'.
    destruct (rotation_lock_loop_cases k st')
      as [-> | (w & _ & _ & [[_ ->] | [_ ->]])]; cbn [fst]; [done| |].
    - by destruct (grant_fields (wait_lock w) (writer_waiting w)
                     (set_requests (delete k (requests st')) st'))
        as (_ & _ & _ & ->).
    - unfold suspend.
      by destruct ((lock_type (wait_lock w) =? ROT_WRITE)
                   && negb (writer_waiting w)). }
  intros Hne. destruct e as [degree | caller low high type | caller i | k | k].
  - by destruct (Hne degree).
  - cbn [exec]. unfold rotation_lock.
    destruct (locks_init_fields st) as (Ho & _).
    destruct (args_invalid low high type); [done|].
    unfold new_lock. by rewrite Hloop.
  - rewrite exec_unlock_fst.
    destruct (rotation_unlock_cases caller i st) as [[-> _] | (l & _ & ->)];
      done.
  - apply Hloop.
  - done.
Qed.

(** The stored orientation is in [0,360) in every state of a run, and no
    event other than set_orientation changes it. *)
Theorem orientation_stays_in_range evs :
  0 <= device_orientation (run evs initial_state) < 360 /\
  forall e, (forall degree, e <> SetOrientation degree) ->
    device_orientation (fst (exec e (run evs initial_state)))
    = device_orientation (run evs initial_state).
Proof.
  split; [|intros e He; by apply exec_orientation].
  assert (H : forall st, 0 <= device_orientation st < 360 ->
            0 <= device_orientation (run evs st) < 360).
  { induction evs as [|e evs IH]; intros st Hst; simpl; [done|].
    apply IH. destruct e as [degree| | | |];
      try (rewrite exec_orientation by done; done).
    cbn [exec]. unfold set_orientation.
    destruct ((degree <? 0) || (degree >=? 360)) eqn:E; cbn; [done|].
    apply orb_false_iff in E. lia. }
  apply H. simpl. lia.
Qed.

(** *** The wait queue *)

Lemma Forall_insert_delete {A} (P : A -> Prop) l k x :
  Forall P (delete k l) -> P x -> Forall P (<[k:=x]> l).
Proof.
  revert k. induction l as [|y l IH]; intros [|k] Hd Hx; simpl in *;
    try done.
  - by apply Forall_cons.
  - apply Forall_cons in Hd as [Hy Hd]. apply Forall_cons. split; [done|].
    by apply IH.
Qed.

Lemma rotation_lock_loop_queued k st w :
  requests st !! k = Some w -> sleeping w = false ->
  args_invalid (lock_low (wait_lock w)) (lock_high (wait_lock w))
    (lock_type (wait_lock w)) = false ->
  (writer_waiting w = true -> lock_type (wait_lock w) = ROT_WRITE) ->
  Forall queued_ok (delete k (requests st)) ->
  Forall queued_ok (requests (fst (rotation_lock_loop k st))).
Proof.
  intros Hk Hs Hv Hw Hq. unfold rotation_lock_loop. rewrite Hk, Hs.
  destruct (lock_available _ _ _ st); cbn [fst].
  - by destruct (grant_fields (wait_lock w) (writer_waiting w)
                   (set_requests (delete k (requests st)) st))
      as (_ & -> & _ & _).
  - unfold suspend. cbv zeta.
    destruct (lock_type (wait_lock w) =? ROT_WRITE) eqn:Et,
      (writer_waiting w) eqn:Ew;
      cbn [andb negb requests set_requests set_locks];
      apply Forall_insert_delete; try done;
      split; cbn [wait_lock writer_waiting]; try done.
    specialize (Hw eq_refl). apply Z.eqb_neq in Et. done.
Qed.

Lemma exec_queued e st :
  Forall queued_ok (requests st) ->
  Forall queued_ok (requests (fst (exec e st))).
Proof.
  intros Hq. destruct e as [degree | caller low high type | caller i | k | k].
  - cbn [exec]. unfold set_orientation.
    by destruct ((degree <? 0) || (degree >=? 360)).
  - cbn [exec]. unfold rotation_lock.
    destruct (locks_init_fields st) as (_ & _ & Hr & _).
    destruct (args_invalid low high type) eqn:Hv; cbn [fst]; [by rewrite Hr|].
    unfold new_lock.
    eapply rotation_lock_loop_queued; cbn; try done. by rewrite Hr.
  - rewrite exec_unlock_fst.
    destruct (rotation_unlock_cases caller i st) as [[-> _] | (l & _ & ->)];
      [done|].
    cbn. apply Forall_fmap. by eapply Forall_impl.
  - cbn [exec]. unfold rotation_lock_loop.
    destruct (requests st !! k) as [w|] eqn:Hk; [|done].
    destruct (sleeping w) eqn:Hs; [done|].
    destruct (Forall_lookup_1 _ _ _ _ Hq Hk) as [Hv Hw].
    pose proof (rotation_lock_loop_queued k st w Hk Hs Hv) as H.
    unfold rotation_lock_loop in H. rewrite Hk, Hs in H. apply H.
    + intros Hww. rewrite Hww in Hw. symmetry in Hw. by apply Z.eqb_eq in Hw.
    + by apply Forall_delete.
  - cbn. by apply Forall_alter.
Qed.

Lemma run_queued evs st :
  Forall queued_ok (requests st) -> Forall queued_ok (requests (run evs st)).
Proof.
  revert st. induction evs as [|e evs IH]; intros st H; simpl; [done|].
  by apply IH, exec_queued.
Qed.

(** Between two events of a run, every call in the queue has bounds in
    [0,360) and a type that is ROT_READ or ROT_WRITE, and has registered
    as a waiting writer exactly when its type is ROT_WRITE: the registration
    happens on the first pass through the loop and is not repeated. *)
Theorem queued_calls_are_registered evs k w :
  requests (run evs initial_state) !! k = Some w ->
  0 <= lock_low (wait_lock w) < 360 /\
  0 <= lock_high (wait_lock w) < 360 /\
  (lock_type (wait_lock w) = ROT_READ \/
   lock_type (wait_lock w) = ROT_WRITE) /\
  (writer_waiting w = true <-> lock_type (wait_lock w) = ROT_WRITE).
Proof.
  intros Hk.
  pose proof (run_queued evs initial_state (Forall_nil_2 _)) as Hq.
  destruct (Forall_lookup_1 _ _ _ _ Hq Hk) as [Hv Hw].
  apply args_invalid_false in Hv as (Hl & Hh & Ht).
  split; [done|]. split; [done|]. split; [done|]. split.
  - intros Hww. rewrite Hww in Hw. symmetry in Hw. by apply Z.eqb_eq in Hw.
  - intros Ht'. by rewrite Ht', Z.eqb_refl in Hw.
Qed.

(** A queued call that the scheduler runs without its request being
    granted goes back to sleep and changes nothing else: counters, held
    locks, id counter and orientation are as before, and so are the lock
    and the registration of every queued call. *)
Theorem wakeup_without_grant_changes_nothing evs k :
  snd (exec (Resume k) (run evs initial_state)) = None ->
  locks (fst (exec (Resume k) (run evs initial_state)))
    = locks (run evs initial_state) /\
  locks_info (fst (exec (Resume k) (run evs initial_state)))
    = locks_info (run evs initial_state) /\
  next_lock_id (fst (exec (Resume k) (run evs initial_state)))
    = next_lock_id (run evs initial_state) /\
  device_orientation (fst (exec (Resume k) (run evs initial_state)))
    = device_orientation (run evs initial_state) /\
  (fun w => (wait_lock w, writer_waiting w))
     <$> requests (fst (exec (Resume k) (run evs initial_state)))
  = (fun w => (wait_lock w, writer_waiting w))
     <$> requests (run evs initial_state).
Proof.
  pose proof (run_queued evs initial_state (Forall_nil_2 _)) as Hq.
  set (st := run evs initial_state) in *. cbn [exec].
  destruct (rotation_lock_loop_cases k st)
    as [-> | (w & Hk & _ & [[_ ->] | [_ ->]])]; cbn [fst snd]; try done.
  intros _.
  destruct (Forall_lookup_1 _ _ _ _ Hq Hk) as [_ Hw].
  unfold suspend. cbv zeta. rewrite Hw.
  destruct (lock_type (wait_lock w) =? ROT_WRITE);
    cbn [andb negb locks locks_info next_lock_id device_orientation
         requests set_requests];
    repeat split; rewrite list_fmap_insert; cbn [wait_lock writer_waiting];
    apply list_insert_id; by rewrite list_lookup_fmap, Hk, <- ?Hw.
Qed.

(** Writer priority: while a call registered as a waiting writer is in the
    queue, a read request is refused on every range low..high that shares
    a degree with the writer's low..high (ranges as the loops count them). *)
Theorem waiting_writer_blocks_readers evs k w d low high :
  requests (run evs initial_state) !! k = Some w ->
  writer_waiting w = true ->
  lock_low (wait_lock w) <= d <= lock_high (wait_lock w) ->
  low <= d <= high ->
  lock_available low high ROT_READ (run evs initial_state) = false.
Proof.
  intros Hk Hww Hd Hr.
  pose proof (run_queued evs initial_state (Forall_nil_2 _)) as Hq.
  destruct (Forall_lookup_1 _ _ _ _ Hq Hk) as [Hv _].
  apply args_invalid_false in Hv as (Hl & Hh & _).
  destruct (run_counters_inv evs _ counters_inv_initial)
    as (_ & _ & _ & _ & Hcnt & _).
  specialize (Hcnt d ltac:(lia)).
  apply not_true_iff_false. intros Hav.
  apply lock_available_true in Hav as [_ Hfree].
  specialize (Hfree d Hr). rewrite Z.eqb_refl, Hcnt in Hfree.
  unfold reader_busy, counts in Hfree.
  cbn [active_writers waiting_writers] in Hfree.
  apply orb_false_iff in Hfree as [_ Hfree].
  assert (1 <= tally (fun w0 => writer_waiting w0 && visits (wait_lock w0) d)
                 (requests (run evs initial_state))); [|lia].
  apply (tally_lookup _ _ k w Hk). rewrite Hww. unfold visits. cbn. lia.
Qed.

(** After a successful rotation_unlock every queued call is awake, and one
    whose request is available in the new state is granted as soon as the
    scheduler runs it: it returns its id and its lock heads the list of
    held locks. *)
Theorem unlock_lets_available_waiter_in caller i st k w :
  snd (rotation_unlock caller i st) = 0 ->
  requests st !! k = Some w ->
  lock_available (lock_low (wait_lock w)) (lock_high (wait_lock w))
    (lock_type (wait_lock w)) (fst (rotation_unlock caller i st)) = true ->
  Forall (fun w' => sleeping w' = false)
    (requests (fst (rotation_unlock caller i st))) /\
  snd (exec (Resume k) (fst (rotation_unlock caller i st)))
    = Some (lock_id (wait_lock w)) /\
  locks_info (fst (exec (Resume k) (fst (rotation_unlock caller i st))))
    = wait_lock w :: locks_info (fst (rotation_unlock caller i st)).
Proof.
  intros Hok Hk Hav.
  split; [by apply rotation_unlock_wakes_all|].
  destruct (rotation_unlock_cases caller i st) as [[_ Hne] | (l & _ & Heq)];
    [done|].
  rewrite Heq in *. cbn [fst] in *.
  set (st' := wake_up_all _) in *.
  assert (Hk' : requests st' !! k = Some (wake w)).
  { cbn. by rewrite list_lookup_fmap, Hk. }
  cbn [exec]. unfold rotation_lock_loop. rewrite Hk'.
  cbn [sleeping wake wait_lock writer_waiting]. rewrite Hav.
  split; [done|]. cbn [fst].
  by destruct (grant_fields (wait_lock w) (writer_waiting w)
                 (set_requests (delete k (requests st')) st'))
    as (-> & _).
Qed.

(** *** What a call does to the state *)

Lemma locks_init_available low high type st :
  zeroed_until_init st ->
  lock_available low high type (locks_init st)
  = lock_available low high type st.
Proof.
  intros Hz. apply lock_available_ext.
  - apply locks_init_fields.
  - by apply locks_init_zeroed.
Qed.

(** A call of rotation_lock that returns an id at once: the arguments were
    valid and the request available, the id is the value of next_lock_id,
    which moves on by one; a lock with the caller's pid and the arguments
    heads the list of held locks; on the degrees low..high (as the loop
    counts them) the counter of the type, active_readers for ROT_READ and
    active_writers otherwise, has gone up by one, and every other counter of
    the 360 degrees, the queue and the orientation are as before. *)
Theorem rotation_lock_grant_effect caller low high type st st1 i :
  zeroed_until_init st -> length (locks st) = 360%nat ->
  rotation_lock caller low high type st = (st1, Some i) -> 0 <= i ->
  i = next_lock_id st /\
  (0 <= low < 360 /\ 0 <= high < 360 /\
   (type = ROT_READ \/ type = ROT_WRITE)) /\
  lock_available low high type st = true /\
  locks_info st1 = mk_lock i caller low high type :: locks_info st /\
  requests st1 = requests st /\
  next_lock_id st1 = long_wrap (i + 1) /\
  device_orientation st1 = device_orientation st /\
  forall d, 0 <= d < 360 ->
    slot st1 d =
      if (low <=? d) && (d <=? high)
      then (if type =? ROT_READ then inc_active_readers (slot st d)
            else inc_active_writers (slot st d))
      else slot st d.
Proof.
  intros Hz Hlen Hlock Hi.
  destruct (locks_init_fields st) as (Ho & Hl & Hr & Hn).
  destruct (rotation_lock_cases caller low high type st)
    as [[_ Heq] | [(Hv & Hav & Heq) | (_ & _ & Heq)]];
    rewrite Heq in Hlock; [| |done].
  { injection Hlock as _ <-. unfold EINVAL in Hi. lia. }
  injection Hlock as <- <-.
  rewrite locks_init_available in Hav by done.
  apply args_invalid_false in Hv.
  set (st0 := set_next_lock_id _ _).
  destruct (grant_fields (mk_lock (next_lock_id st) caller low high type)
              false st0) as (Hgl & Hgr & Hgn & Hgo).
  split; [done|]. split; [done|]. split; [done|].
  split; [by rewrite Hgl; cbn; rewrite Hl|].
  split; [by rewrite Hgr; cbn; rewrite Hr|].
  split; [by rewrite Hgn|].
  split; [by rewrite Hgo; cbn; rewrite Ho|].
  intros d Hd. rewrite grant_slot; cbn [lock_low]; [|lia|lia|].
  - unfold visits, slot. cbn [lock_low lock_high lock_type st0 locks
                              set_next_lock_id].
    by rewrite locks_init_zeroed.
  - cbn [st0 locks set_next_lock_id]. rewrite locks_init_zeroed by done. lia.
Qed.

(** A call of rotation_lock with valid arguments whose request is not
    available does not return: it has taken an id all the same, and sits
    asleep at the head of the queue; no lock is added.  A ROT_WRITE call
    has registered, raising waiting_writers by one on the degrees low..high
    (as the loop counts them); no other counter of the 360 degrees has
    changed. *)
Theorem rotation_lock_blocked_effect caller low high type st :
  zeroed_until_init st -> length (locks st) = 360%nat ->
  0 <= low < 360 -> 0 <= high < 360 ->
  type = ROT_READ \/ type = ROT_WRITE ->
  lock_available low high type st = false ->
  snd (rotation_lock caller low high type st) = None /\
  requests (fst (rotation_lock caller low high type st))
    = mk_waiter (mk_lock (next_lock_id st) caller low high type)
        (type =? ROT_WRITE) true :: requests st /\
  locks_info (fst (rotation_lock caller low high type st)) = locks_info st /\
  next_lock_id (fst (rotation_lock caller low high type st))
    = long_wrap (next_lock_id st + 1) /\
  device_orientation (fst (rotation_lock caller low high type st))
    = device_orientation st /\
  forall d, 0 <= d < 360 ->
    slot (fst (rotation_lock caller low high type st)) d =
      if (type =? ROT_WRITE) && ((low <=? d) && (d <=? high))
      then inc_waiting_writers (slot st d) else slot st d.
Proof.
  intros Hz Hlen Hlow Hhigh Htype Hav.
  destruct (locks_init_fields st) as (Ho & Hl & Hr & Hn).
  assert (Hv : args_invalid low high type = false)
    by by apply args_invalid_false.
  destruct (rotation_lock_cases caller low high type st)
    as [[Hv' _] | [(_ & Hav' & _) | (_ & _ & ->)]].
  - congruence.
  - rewrite locks_init_available in Hav' by done. congruence.
  - cbn [fst snd]. split; [done|].
    set (w := mk_waiter _ false false).
    set (st2 := set_requests _ _).
    assert (Hs : forall d, 0 <= d < 360 ->
              slot (suspend 0 w st2) d =
              if (type =? ROT_WRITE) && negb false
                 && ((low <=? d) && (d <=? high))
              then inc_waiting_writers (slot st d) else slot st d).
    { intros d Hd. rewrite suspend_slot; cbn [w wait_lock lock_low];
        [|lia|lia|].
      - unfold visits, slot.
        cbn [w wait_lock writer_waiting lock_low lock_high lock_type st2
             locks set_requests set_next_lock_id].
        by rewrite locks_init_zeroed.
      - cbn [st2 locks set_requests set_next_lock_id].
        rewrite locks_init_zeroed by done. lia. }
    unfold suspend at 1 2 3 4. cbv zeta.
    cbn [w wait_lock writer_waiting lock_low lock_high lock_type negb].
    rewrite andb_true_r.
    split; [|split; [|split; [|split]]].
    + destruct (type =? ROT_WRITE);
        cbn [requests set_requests set_locks st2 set_next_lock_id];
        by rewrite Hr.
    + destruct (type =? ROT_WRITE);
        cbn [locks_info set_requests set_locks st2 set_next_lock_id];
        by rewrite Hl.
    + by destruct (type =? ROT_WRITE).
    + destruct (type =? ROT_WRITE);
        cbn [device_orientation set_requests set_locks st2
             set_next_lock_id]; by rewrite Ho.
    + intros d Hd. rewrite (Hs d Hd). cbn [negb]. by rewrite andb_true_r.
Qed.

(** A successful rotation_unlock: the id is not negative, the first held
    lock with that id belongs to the caller and is the one unlinked; on the
    degrees low..high of that lock (as the loop counts them) the counter of
    its type has gone down by one, and every other counter of the 360
    degrees, the id counter and the orientation are as before; the queued
    calls are the same, all awake. *)
Theorem rotation_unlock_release_effect caller i st :
  length (locks st) = 360%nat ->
  Forall (fun l => 0 <= lock_low l) (locks_info st) ->
  snd (rotation_unlock caller i st) = 0 ->
  exists l,
    0 <= i /\ find_lock (locks_info st) i = Some l /\ lock_pid l = caller /\
    locks_info (fst (rotation_unlock caller i st))
      = list_del i (locks_info st) /\
    requests (fst (rotation_unlock caller i st)) = wake <$> requests st /\
    next_lock_id (fst (rotation_unlock caller i st)) = next_lock_id st /\
    device_orientation (fst (rotation_unlock caller i st))
      = device_orientation st /\
    forall d, 0 <= d < 360 ->
      slot (fst (rotation_unlock caller i st)) d =
        if (lock_low l <=? d) && (d <=? lock_high l)
        then (if lock_type l =? ROT_READ then dec_active_readers (slot st d)
              else dec_active_writers (slot st d))
        else slot st d.
Proof.
  intros Hlen Hreg. unfold rotation_unlock.
  destruct (i <? 0) eqn:Hi; [done|].
  destruct (find_lock (locks_info st) i) as [l|] eqn:Hfind; [|done].
  destruct (negb (lock_pid l =? caller)) eqn:Hp; [done|].
  intros _. exists l. cbn [fst].
  apply negb_false_iff, Z.eqb_eq in Hp.
  destruct (find_lock_Some _ _ _ Hfind) as [Hin _].
  assert (Hlow : 0 <= lock_low l)
    by by apply (proj1 (Forall_forall _ _) Hreg).
  split; [lia|]. split; [done|]. split; [done|].
  split; [done|]. split; [done|]. split; [done|]. split; [done|].
  intros d Hd. unfold slot.
  cbn [wake_up_all set_requests set_locks set_locks_info locks].
  rewrite for_range_slot by lia.
  by destruct ((lock_low l <=? d) && (d <=? lock_high l)).
Qed.

(** The list of held locks loses an entry only in rotation_unlock: any
    other event leaves it as it is or puts one lock in front. *)
Theorem held_locks_leave_only_by_unlock e st :
  (forall caller i, e <> RotationUnlock caller i) ->
  exists new,
    locks_info (fst (exec e st)) = new ++ locks_info st /\
    (length new <= 1)%nat.
Proof.
  assert (Hloop : forall k st', exists new,
            locks_info (fst (rotation_lock_loop k st'))
              = new ++ locks_info st' /\ (length new <= 1)%nat).
  { intros k st'.
    destruct (rotation_lock_loop_cases k st')
      as [-> | (w & Hk & _ & [[_ ->] | [_ ->]])]; cbn [fst].
    - exists []. split; [done | simpl; lia].
    - exists [wait_lock w]. split; [|simpl; lia].
      by destruct (grant_fields (wait_lock w) (writer_waiting w)
                     (set_requests (delete k (requests st')) st'))
        as (-> & _).
    - exists []. split; [|simpl; lia]. unfold suspend.
      by destruct ((lock_type (wait_lock w) =? ROT_WRITE)
                   && negb (writer_waiting w)). }
  intros Hne. destruct e as [degree | caller low high type | caller i | k | k].
  - exists []. split; [|simpl; lia]. cbn [exec]. unfold set_orientation.
    by destruct ((degree <? 0) || (degree >=? 360)).
  - cbn [exec]. unfold rotation_lock.
    destruct (locks_init_fields st) as (_ & Hl & _).
    destruct (args_invalid low high type).
    { exists []. split; [by rewrite <- Hl | simpl; lia]. }
    unfold new_lock.
    set (st2 := set_requests _ _).
    destruct (Hloop 0%nat st2) as (new & Hnew & Hlen).
    exists new. split; [|done]. rewrite Hnew. cbn. by rewrite Hl.
  - by destruct (Hne caller i).
  - apply Hloop.
  - exists []. split; [done | simpl; lia].
Qed.

(** *** Who keeps whom out *)

Lemma scan_alter n i busy body j tbl :
  (forall s, busy (body s) = busy s) ->
  scan n i busy (alter body j tbl) = scan n i busy tbl.
Proof.
  intros Hb. revert i. induction n as [|n IH]; intros i; simpl; [done|].
  rewrite IH, list_lookup_total_alter.
  case_decide as Hd; [|done]. destruct Hd as [-> _]. by rewrite Hb.
Qed.

Lemma scan_for_each n i busy m j body tbl :
  (forall s, busy (body s) = busy s) ->
  scan n i busy (for_each m j body tbl) = scan n i busy tbl.
Proof.
  intros Hb. revert j tbl.
  induction m as [|m IH]; intros j tbl; simpl; [done|].
  by rewrite IH, scan_alter.
Qed.

(** Readers do not keep readers out: when rotation_lock returns an id for a
    ROT_READ request, every read request, on any range, is available
    afterwards exactly if it was before. *)
Theorem read_grant_keeps_readers_available caller low high st st1 i low' high' :
  zeroed_until_init st ->
  rotation_lock caller low high ROT_READ st = (st1, Some i) -> 0 <= i ->
  lock_available low' high' ROT_READ st1
  = lock_available low' high' ROT_READ st.
Proof.
  intros Hz Hlock Hi.
  destruct (locks_init_fields st) as (Ho & _).
  destruct (rotation_lock_cases caller low high ROT_READ st)
    as [[_ Heq] | [(_ & _ & Heq) | (_ & _ & Heq)]];
    rewrite Heq in Hlock; [| |done].
  { injection Hlock as _ <-. unfold EINVAL in Hi. lia. }
  injection Hlock as <- _.
  unfold lock_available, orientation_in_range, grant.
  cbn [device_orientation locks set_locks set_locks_info set_next_lock_id
       lock_low lock_high lock_type].
  rewrite Ho, !Z.eqb_refl. unfold scan_range, for_range.
  rewrite scan_for_each by (by intros []).
  by rewrite locks_init_zeroed.
Qed.

(** In a state of a run, a held lock whose low..high contains degree d
    keeps requests on ranges containing d out: every request if the lock
    is not a read lock, every request other than ROT_READ if it is (ranges
    as the loops count them). *)
Theorem held_lock_blocks_requests evs j l d low high type :
  0 <= d < 360 ->
  locks_info (run evs initial_state) !! j = Some l ->
  lock_low l <= d <= lock_high l ->
  low <= d <= high ->
  lock_type l <> ROT_READ \/ type <> ROT_READ ->
  lock_available low high type (run evs initial_state) = false.
Proof.
  intros Hd Hj Hl Hr Ht.
  destruct (run_counters_inv evs _ counters_inv_initial)
    as (_ & _ & _ & _ & Hcnt & _).
  specialize (Hcnt d Hd).
  assert (Hv : visits l d = true) by (unfold visits; lia).
  pose proof (tally_nonneg
    (fun l => (lock_type l =? ROT_READ) && visits l d)
    (locks_info (run evs initial_state))) as Hnr.
  pose proof (tally_nonneg
    (fun l => negb (lock_type l =? ROT_READ) && visits l d)
    (locks_info (run evs initial_state))) as Hnw.
  apply not_true_iff_false. intros Hav.
  apply lock_available_true in Hav as [_ Hfree].
  specialize (Hfree d Hr). rewrite Hcnt in Hfree.
  unfold reader_busy, writer_busy, counts in Hfree.
  cbn [active_readers active_writers waiting_writers] in Hfree.
  destruct (lock_type l =? ROT_READ) eqn:El.
  - (* a held read lock and a request that is not a read *)
    destruct Ht as [Ht|Ht]; [by apply Z.eqb_eq in El|].
    apply Z.eqb_neq in Ht. rewrite Ht in Hfree.
    apply orb_false_iff in Hfree as [Hfree _].
    assert (1 <= tally (fun l => (lock_type l =? ROT_READ) && visits l d)
                   (locks_info (run evs initial_state))); [|lia].
    apply (tally_lookup _ _ j l Hj). by rewrite El, Hv.
  - (* a held lock that is not a read lock *)
    assert (1 <= tally (fun l => negb (lock_type l =? ROT_READ)
                                 && visits l d)
                   (locks_info (run evs initial_state))) as Hw.
    { apply (tally_lookup _ _ j l Hj). by rewrite El, Hv. }
    destruct (type =? ROT_READ);
      apply orb_false_iff in Hfree as [H1 H2]; lia.
Qed.

(** A valid request on a range with low > high is decided by the
    orientation alone: it returns the next id at once when the orientation
    is at least low or at most high, whatever the counters say, and sleeps
    otherwise; either way no counter changes. *)
Theorem wrapped_request_decided_by_orientation caller low high type st :
  zeroed_until_init st ->
  0 <= high -> high < low -> low < 360 ->
  type = ROT_READ \/ type = ROT_WRITE ->
  locks (fst (rotation_lock caller low high type st)) = locks st /\
  (low <= device_orientation st \/ device_orientation st <= high ->
   snd (rotation_lock caller low high type st) = Some (next_lock_id st)) /\
  (high < device_orientation st < low ->
   snd (rotation_lock caller low high type st) = None).
Proof.
  intros Hz Hh Hw Hl Ht.
  destruct (locks_init_fields st) as (Ho & _).
  assert (Hav : lock_available low high type (locks_init st)
                = covers low high (device_orientation st))
    by (by rewrite lock_available_wrapped, Ho by done).
  assert (Hc : covers low high (device_orientation st) = true <->
               low <= device_orientation st \/ device_orientation st <= high).
  { unfold covers. replace (low <=? high) with false by lia.
    rewrite orb_true_iff. lia. }
  destruct (rotation_lock_cases caller low high type st)
    as [[Hv _] | [(_ & Hav' & ->) | (_ & Hav' & ->)]]; cbn [fst snd].
  - apply args_invalid_true in Hv. lia.
  - split; [|split; [done|]].
    + unfold grant.
      cbn [locks set_locks set_locks_info set_next_lock_id lock_low
           lock_high].
      rewrite for_range_empty by done. by apply locks_init_zeroed.
    + intros Hout. rewrite Hav in Hav'. apply Hc in Hav'. lia.
  - split; [|split; [|done]].
    + unfold suspend. cbv zeta.
      cbn [wait_lock writer_waiting lock_low lock_high lock_type].
      destruct ((type =? ROT_WRITE) && negb false);
        cbn [locks set_locks set_requests set_next_lock_id];
        rewrite ?for_range_empty by done; by apply locks_init_zeroed.
    + intros Hin. apply Hc in Hin. congruence.
Qed.

(** *** Granting a queued call, releasing a held lock *)

(** A queued call that the scheduler runs and that returns an id: it was
    awake and its request available; it leaves the queue and its lock heads
    the list of held locks; on the degrees low..high of the lock (as the
    loop counts them) the counter of its type has gone up by one and, if
    the call was registered as a waiting writer, waiting_writers has gone
    down by one; every other counter of the 360 degrees is as before. *)
Theorem queued_grant_effect k st st1 i :
  length (locks st) = 360%nat ->
  Forall (fun w => 0 <= lock_low (wait_lock w)) (requests st) ->
  rotation_lock_loop k st = (st1, Some i) ->
  exists w,
    requests st !! k = Some w /\ sleeping w = false /\
    i = lock_id (wait_lock w) /\
    lock_available (lock_low (wait_lock w)) (lock_high (wait_lock w))
      (lock_type (wait_lock w)) st = true /\
    locks_info st1 = wait_lock w :: locks_info st /\
    requests st1 = delete k (requests st) /\
    forall d, 0 <= d < 360 ->
      slot st1 d =
        if (lock_low (wait_lock w) <=? d) && (d <=? lock_high (wait_lock w))
        then
          (if lock_type (wait_lock w) =? ROT_READ
           then inc_active_readers
                  (if writer_waiting w then dec_waiting_writers (slot st d)
                   else slot st d)
           else inc_active_writers
                  (if writer_waiting w then dec_waiting_writers (slot st d)
                   else slot st d))
        else slot st d.
Proof.
  intros Hlen Hque Hloop.
  destruct (rotation_lock_loop_cases k st)
    as [Heq | (w & Hk & Hs & [[Hav Heq] | [_ Heq]])];
    rewrite Heq in Hloop; try done.
  injection Hloop as <- <-. exists w.
  set (st0 := set_requests (delete k (requests st)) st).
  destruct (grant_fields (wait_lock w) (writer_waiting w) st0)
    as (Hgl & Hgr & _ & _).
  pose proof (Forall_lookup_1 _ _ _ _ Hque Hk) as Hlow.
  do 6 (split; [done|]).
  intros d Hd. rewrite grant_slot; [done | done | lia |].
  cbn [st0 locks set_requests]. lia.
Qed.

Lemma find_lock_lookup ls j l :
  NoDup (lock_id <$> ls) -> ls !! j = Some l ->
  find_lock ls (lock_id l) = Some l /\
  list_del (lock_id l) ls = delete j ls.
Proof.
  revert j. induction ls as [|x ls IH]; intros [|j] Hnd Hj; try done.
  - injection Hj as ->. simpl. by rewrite Z.eqb_refl.
  - rewrite fmap_cons in Hnd. apply NoDup_cons in Hnd as [Hx Hnd].
    cbn in Hj. destruct (IH j Hnd Hj) as [Hf Hd].
    simpl. destruct (lock_id x =? lock_id l) eqn:E.
    + apply Z.eqb_eq in E. destruct Hx. rewrite E.
      apply list_elem_of_fmap_2. by eapply list_elem_of_lookup_2.
    + by rewrite Hf, Hd.
Qed.

(** In a run (short enough for next_lock_id not to reach LONG_MAX) every
    held lock can be released by its owner and by nobody else:
    rotation_unlock with the lock's id returns 0 for the lock's pid and
    removes that very entry, and returns -EPERM, changing nothing, for any
    other caller. *)
Theorem owner_can_release evs j l :
  Z.of_nat (length evs) <= LONG_MAX ->
  locks_info (run evs initial_state) !! j = Some l ->
  snd (rotation_unlock (lock_pid l) (lock_id l) (run evs initial_state)) = 0
  /\
  locks_info (fst (rotation_unlock (lock_pid l) (lock_id l)
                     (run evs initial_state)))
    = delete j (locks_info (run evs initial_state)) /\
  forall c, c <> lock_pid l ->
    rotation_unlock c (lock_id l) (run evs initial_state)
    = (run evs initial_state, - EPERM).
Proof.
  intros Hlen Hj.
  pose proof (run_ids_inv evs initial_state [] [] ids_inv_initial
                ltac:(simpl; lia)) as Hinv.
  apply ids_inv_ok in Hinv as (_ & Hnd & Hr).
  set (st := run evs initial_state) in *.
  assert (Hid : 0 <= lock_id l).
  { apply (proj1 (Forall_forall _ _) Hr). unfold held_ids.
    apply elem_of_app. left. unfold registry_ids.
    apply list_elem_of_fmap_2. by eapply list_elem_of_lookup_2. }
  apply NoDup_app in Hnd as (Hnd & _ & _).
  destruct (find_lock_lookup _ _ _ Hnd Hj) as [Hf Hd].
  unfold rotation_unlock.
  replace (lock_id l <? 0) with false by lia. rewrite Hf, Z.eqb_refl.
  cbn [negb fst snd]. split; [done|]. split; [by rewrite <- Hd|].
  intros c Hc. by replace (lock_pid l =? c) with false by lia.
Qed.

(** ** A lock from the call to its release *)

Lemma background_quiet e st :
  Forall queued_ok (requests st) -> background e -> granted_by e st = [] ->
  locks (fst (exec e st)) = locks st /\
  locks_info (fst (exec e st)) = locks_info st /\
  queue_data (fst (exec e st)) = queue_data st.
Proof.
  intros Hq Hb Hg.
  destruct e as [degree | caller low high type | caller i | k | k];
    try (by destruct Hb).
  - cbn [exec]. unfold set_orientation.
    by destruct ((degree <? 0) || (degree >=? 360)).
  - cbn [granted_by exec] in *.
    destruct (rotation_lock_loop_cases k st)
      as [Heq | (w & Hk & _ & [[_ Heq] | [_ Heq]])];
      rewrite Heq in *; cbn [fst snd option_list] in *; [done|done|].
    destruct (Forall_lookup_1 _ _ _ _ Hq Hk) as [_ Hw].
    unfold suspend, queue_data. cbv zeta. rewrite Hw.
    destruct (lock_type (wait_lock w) =? ROT_WRITE);
      cbn [andb negb locks locks_info requests set_requests];
      (split; [done|]); (split; [done|]);
      rewrite list_fmap_insert; cbn [wait_lock writer_waiting];
      apply list_insert_id; by rewrite list_lookup_fmap, Hk, <- ?Hw.
  - cbn [exec fst]. split; [done|]. split; [done|].
    unfold queue_data. cbn [requests set_requests].
    rewrite (list_fmap_alter _ wake (fun x => x))
      by (by apply Forall_forall).
    by apply list_alter_id.
Qed.

Lemma background_grant e st g rest :
  background e -> granted_by e st = g :: rest ->
  rest = [] /\
  exists k w,
    requests st !! k = Some w /\ g = lock_id (wait_lock w) /\
    fst (exec e st)
    = grant (wait_lock w) (writer_waiting w)
        (set_requests (delete k (requests st)) st).
Proof.
  intros Hb Hg.
  destruct e as [degree | caller low high type | caller i | k | k];
    try (by destruct Hb); try done.
  cbn [granted_by exec] in *.
  destruct (rotation_lock_loop_cases k st)
    as [Heq | (w & Hk & _ & [[_ Heq] | [_ Heq]])];
    rewrite Heq in *; cbn [fst snd option_list] in *; [done| |done].
  injection Hg as <- <-. split; [done|]. by exists k, w.
Qed.

Lemma suspend_fields k w st :
  locks (suspend k w st)
  = (if (lock_type (wait_lock w) =? ROT_WRITE) && negb (writer_waiting w)
     then for_range (lock_low (wait_lock w)) (lock_high (wait_lock w))
            inc_waiting_writers (locks st)
     else locks st) /\
  locks_info (suspend k w st) = locks_info st /\
  requests (suspend k w st)
  = <[k := mk_waiter (wait_lock w)
             (if (lock_type (wait_lock w) =? ROT_WRITE)
                 && negb (writer_waiting w)
              then true else writer_waiting w) true]> (requests st).
Proof.
  unfold suspend. cbv zeta.
  by destruct ((lock_type (wait_lock w) =? ROT_WRITE)
               && negb (writer_waiting w)).
Qed.

Lemma grant_locks lock ww st :
  locks (grant lock ww st)
  = for_range (lock_low lock) (lock_high lock)
      (fun x => if lock_type lock =? ROT_READ then inc_active_readers x
                else inc_active_writers x)
      (if ww
       then for_range (lock_low lock) (lock_high lock) dec_waiting_writers
              (locks st)
       else locks st).
Proof. unfold grant. by destruct ww. Qed.

Lemma holding_run T0 R0 L mid s :
  holding_phase T0 R0 L s -> Forall background mid -> granted mid s = [] ->
  holding_phase T0 R0 L (run mid s).
Proof.
  revert s. induction mid as [|e mid IH]; intros s Hh Hmid Hg; [done|].
  apply Forall_cons in Hmid as [Hb Hmid].
  cbn [granted run] in *. apply app_eq_nil in Hg as [Hg1 Hg2].
  destruct Hh as (Hl & Hr & Hq).
  destruct (background_quiet e s Hq Hb Hg1) as (Hl' & Hr' & _).
  apply IH; [|done|done].
  split; [by rewrite Hl'|]. split; [by rewrite Hr'|]. by apply exec_queued.
Qed.

Lemma waiting_run T0 R0 Q0 L mid s :
  waiting_phase T0 R0 Q0 L s -> 0 <= lock_low L ->
  (forall p, p ∈ Q0 -> lock_id p.1 <> lock_id L) ->
  Forall background mid -> granted mid s = [lock_id L] ->
  holding_phase T0 R0 L (run mid s).
Proof.
  intros Hw Hlow Hfresh. revert s Hw.
  induction mid as [|e mid IH]; intros s Hw Hmid Hg; [done|].
  apply Forall_cons in Hmid as [Hb Hmid].
  cbn [granted run] in *.
  destruct Hw as (Hl & Hr & Hd & Hq).
  destruct (granted_by e s) as [|g rest] eqn:Hge.
  - (* the event returns no id: the call keeps waiting *)
    destruct (background_quiet e s Hq Hb Hge) as (Hl' & Hr' & Hd').
    apply IH; [|done|done].
    split; [by rewrite Hl'|]. split; [by rewrite Hr'|].
    split; [by rewrite Hd'|]. by apply exec_queued.
  - (* a queued call is granted: it is this one *)
    destruct (background_grant e s g rest Hb Hge)
      as (-> & k & w & Hk & -> & Hs').
    cbn [app] in Hg. injection Hg as Hid Hg.
    assert (Hkd : queue_data s !! k = Some (wait_lock w, writer_waiting w))
      by (unfold queue_data; by rewrite list_lookup_fmap, Hk).
    rewrite Hd in Hkd. destruct k as [|k]; cbn in Hkd.
    2: { destruct (Hfresh (wait_lock w, writer_waiting w)); [|done].
         by eapply list_elem_of_lookup_2. }
    injection Hkd as HL Hww.
    apply holding_run; [|done|done].
    split; [|split].
    + rewrite Hs', grant_locks, <- HL, <- Hww.
      cbn [locks set_requests]. rewrite Hl.
      destruct (lock_type L =? ROT_WRITE); [|done].
      rewrite (for_range_inverse _ _ inc_waiting_writers
                 dec_waiting_writers); [done | done |].
      intros [r a b]. unfold dec_waiting_writers, inc_waiting_writers.
      cbn. f_equal. lia.
    + rewrite Hs'.
      destruct (grant_fields (wait_lock w) (writer_waiting w)
                  (set_requests (delete 0%nat (requests s)) s))
        as (-> & _).
      cbn [locks_info set_requests]. by rewrite <- HL, Hr.
    + by apply exec_queued.
Qed.

(** C7: a call of rotation_lock is followed by any number of orientation
    changes, signals and runs of queued calls, in the course of which it
    returns its id, at once or after sleeping, and no other id is returned;
    then rotation_unlock of the id by the caller returns 0 and leaves the
    counter table exactly as it was before the call of rotation_lock
    (active counters and, for a writer that slept, waiting_writers), and a
    further rotation_unlock of the id, by any caller, returns -EINVAL.
    (The state before the call is one the program can be in: counters zero
    while locks_init has not run, next_lock_id not negative and carried by
    no held lock and no queued call, every queued call registered.) *)
Theorem acquire_release_round_trip caller low high type mid i st :
  zeroed_until_init st ->
  0 <= next_lock_id st -> next_lock_id st ∉ held_ids st ->
  Forall queued_ok (requests st) ->
  Forall background mid ->
  issued_by (RotationLock caller low high type) st = [i] ->
  granted (RotationLock caller low high type :: mid) st = [i] ->
  exists st2,
    rotation_unlock caller i
      (run (RotationLock caller low high type :: mid) st) = (st2, 0) /\
    locks st2 = locks st /\
    forall c, rotation_unlock c i st2 = (st2, - EINVAL).
Proof.
  intros Hz Hn Hfresh Hq Hmid Hiss Hgr.
  destruct (locks_init_fields st) as (Ho & Hl & Hr & Hnx).
  cbn [issued_by] in Hiss. cbn [granted granted_by run] in *.
  destruct (args_invalid low high type) eqn:Hv; [done|].
  unfold new_lock in Hiss. cbn [fst lock_id] in Hiss.
  rewrite Hnx in Hiss. injection Hiss as <-.
  set (L := mk_lock (next_lock_id st) caller low high type).
  pose proof (exec_queued (RotationLock caller low high type) st Hq) as Hq'.
  pose proof Hv as (Hlow & _ & _)%args_invalid_false.
  apply not_elem_of_app in Hfresh as [Hfr Hfq].
  assert (Hheld : holding_phase (locks st) (locks_info st) L
                    (run mid (fst (exec (RotationLock caller low high type)
                                     st)))).
  { cbn [exec] in *.
    destruct (rotation_lock_cases caller low high type st)
      as [[Hv' _] | [(_ & _ & Heq) | (_ & _ & Heq)]]; [congruence| |];
      rewrite Heq in *; cbn [fst snd option_list app] in *.
    - (* granted at once *)
      injection Hgr as Hgr. apply holding_run; [|done|done].
      split; [|split; [|done]].
      + rewrite grant_locks. cbn [locks set_next_lock_id].
        by rewrite locks_init_zeroed.
      + unfold grant. cbn [locks_info set_locks set_locks_info
                           set_next_lock_id]. by rewrite Hl.
    - (* asleep first *)
      subst L. set (L := mk_lock _ _ _ _ _) in *.
      set (w0 := mk_waiter L false false) in *.
      set (st2 := set_requests _ _) in *.
      destruct (suspend_fields 0 w0 st2) as (Hsl & Hsi & Hsr).
      apply (waiting_run _ _ (queue_data st) L); [|cbn; lia| |done|done].
      + unfold waiting_phase, queue_data. rewrite Hsl, Hsi, Hsr.
        split; [|split; [|split; [|by rewrite <- Hsr]]];
          cbn [w0 wait_lock writer_waiting negb L lock_type lock_low
               lock_high st2 locks locks_info requests set_requests
               set_next_lock_id];
          rewrite ?andb_true_r, ?locks_init_zeroed, ?Hl, ?Hr by done;
          [done|done|].
        cbn. by destruct (type =? ROT_WRITE).
      + intros p Hp Hid. apply Hfq.
        unfold queue_data in Hp.
        apply list_elem_of_fmap in Hp as (w & -> & Hw).
        cbn in Hid. rewrite <- Hid. unfold queue_ids.
        by apply (list_elem_of_fmap_2 (fun w => lock_id (wait_lock w))). }
  destruct Hheld as (Hlk & Hli & _).
  set (s1 := run mid _) in *.
  unfold rotation_unlock.
  replace (next_lock_id st <? 0) with false by lia.
  rewrite Hli. cbn [find_lock list_del L lock_id lock_pid lock_low lock_high
                    lock_type]. rewrite !Z.eqb_refl. cbn [negb].
  eexists. split; [reflexivity|]. split.
  - cbn [wake_up_all set_requests set_locks set_locks_info locks].
    rewrite Hlk. cbn [L lock_low lock_high lock_type].
    apply for_range_inverse; [lia | apply lock_active_inverse].
  - intros c. unfold rotation_unlock.
    replace (next_lock_id st <? 0) with false by lia.
    cbn [wake_up_all set_requests set_locks set_locks_info locks_info].
    replace (find_lock (locks_info st) (next_lock_id st)) with
      (@None lock_info); [done|].
    symmetry. apply find_lock_None. intros x Hx Hid. apply Hfr.
    rewrite <- Hid. unfold registry_ids. by apply list_elem_of_fmap_2.
Qed.

End Rotation.

(** ** The theorems at work

    The hypotheses of the theorems above are met by concrete calls; the
    two type macros are given the values 0 and 1 here. *)

Lemma set_orientation_stores_or_rejects_witness :
  (0 <= 90 < 360 /\
   snd (set_orientation 90 initial_state) = 0 /\
   device_orientation (fst (set_orientation 90 initial_state)) = 90) /\
  ((400 < 0 \/ 360 <= 400) /\
   snd (set_orientation 400 initial_state) = - EINVAL /\
   fst (set_orientation 400 initial_state) = initial_state).
Proof.
  split.
  - split; [lia|].
    apply (proj1 (set_orientation_stores_or_rejects 90 initial_state)). lia.
  - split; [lia|].
    apply (proj2 (set_orientation_stores_or_rejects 400 initial_state)). lia.
Defined.

Lemma rotation_unlock_failures_witness :
  rotation_unlock 0 7 (-1) initial_state = (initial_state, - EINVAL) /\
  rotation_unlock 0 7 3 initial_state = (initial_state, - EINVAL) /\
  rotation_unlock 0 6 0 (fst (rotation_lock 0 1 5 0 10 0 initial_state))
    = (fst (rotation_lock 0 1 5 0 10 0 initial_state), - EPERM).
Proof.
  split; [|split].
  - apply (proj1 (rotation_unlock_failures 0 7 (-1) initial_state)).
    left. lia.
  - apply (proj1 (rotation_unlock_failures 0 7 3 initial_state)).
    right. intros l Hl. simpl in Hl. by apply not_elem_of_nil in Hl.
  - apply (proj2 (rotation_unlock_failures 0 6 0
                    (fst (rotation_lock 0 1 5 0 10 0 initial_state)))
             (mk_lock 0 5 0 10 0)).
    + lia.
    + by vm_compute.
    + simpl. lia.
Defined.

Lemma rotation_lock_einval_witness :
  0 <= next_lock_id initial_state /\
  zeroed_until_init initial_state /\
  (snd (rotation_lock 0 1 1 400 10 0 initial_state) = Some (- EINVAL) <->
     400 < 0 \/ 360 <= 400 \/ 10 < 0 \/ 360 <= 10 \/ (0 <> 0 /\ 0 <> 1)) /\
  (snd (rotation_lock 0 1 1 400 10 0 initial_state) = Some (- EINVAL) ->
     next_lock_id (fst (rotation_lock 0 1 1 400 10 0 initial_state))
       = next_lock_id initial_state /\
     locks_info (fst (rotation_lock 0 1 1 400 10 0 initial_state))
       = locks_info initial_state /\
     locks (fst (rotation_lock 0 1 1 400 10 0 initial_state))
       = locks initial_state /\
     requests (fst (rotation_lock 0 1 1 400 10 0 initial_state))
       = requests initial_state /\
     device_orientation (fst (rotation_lock 0 1 1 400 10 0 initial_state))
       = device_orientation initial_state /\
     fst (rotation_lock 0 1 1 400 10 0 initial_state)
       = set_locks_initialized true initial_state) /\
  snd (rotation_lock 0 1 1 400 10 0 initial_state) = Some (- EINVAL) /\
  (0 <> 3 -> 1 <> 3 ->
     snd (rotation_lock 0 1 1 10 20 3 initial_state) = Some (- EINVAL)).
Proof.
  assert (H0 : 0 <= next_lock_id initial_state) by (simpl; lia).
  assert (Hz : zeroed_until_init initial_state) by (intros _; reflexivity).
  split; [exact H0|]. split; [exact Hz|].
  exact (rotation_lock_einval 0 1 1 400 10 0 initial_state H0 Hz).
Defined.

Lemma lock_unlock_round_trip_witness :
  exists st2,
    rotation_unlock 0 1 0 (fst (rotation_lock 0 1 1 0 20 0 initial_state))
      = (st2, 0) /\
    locks st2 = locks initial_state /\
    forall c, rotation_unlock 0 c 0 st2 = (st2, - EINVAL).
Proof.
  apply (lock_unlock_round_trip 0 1 1 0 20 0 initial_state).
  - intros _. reflexivity.
  - intros l Hl. simpl in Hl. by apply not_elem_of_nil in Hl.
  - by vm_compute.
  - lia.
Defined.

Lemma acquire_release_round_trip_witness :
  let call := RotationLock 1 90 110 1 in
  let mid := [SetOrientation 100; Signal 0; Resume 0] in
  granted 0 1 [call] initial_state = [] /\
  granted 0 1 (call :: mid) initial_state = [0] /\
  locks (run 0 1 [call] initial_state)
  = for_range 90 110 inc_waiting_writers (locks initial_state) /\
  exists st2,
    rotation_unlock 0 1 0 (run 0 1 (call :: mid) initial_state) = (st2, 0) /\
    locks st2 = locks initial_state /\
    forall c, rotation_unlock 0 c 0 st2 = (st2, - EINVAL).
Proof.
  intros call mid.
  split; [by vm_compute|]. split; [by vm_compute|]. split; [by vm_compute|].
  apply (acquire_release_round_trip 0 1 1 90 110 1 mid 0 initial_state).
  - intros _. reflexivity.
  - by vm_compute.
  - intros Hin. by apply not_elem_of_nil in Hin.
  - apply Forall_nil_2.
  - repeat constructor.
  - by vm_compute.
  - by vm_compute.
Defined.

Lemma lock_ids_unique_increasing_witness :
  let evs := [RotationLock 1 0 10 0; RotationLock 2 20 30 1;
              RotationUnlock 1 0; Resume 0; RotationLock 1 0 10 0] in
  Z.of_nat (length evs) <= LONG_MAX /\
  StronglySorted Z.lt (issued 0 1 evs initial_state) /\
  NoDup (granted 0 1 evs initial_state) /\
  (forall g, g ∈ granted 0 1 evs initial_state ->
     g ∈ issued 0 1 evs initial_state) /\
  (forall evs1 caller i evs2,
     evs = evs1 ++ RotationUnlock caller i :: evs2 ->
     snd (rotation_unlock 0 caller i (run 0 1 evs1 initial_state)) = 0 ->
     (i ∉ issued 0 1 evs2
            (fst (rotation_unlock 0 caller i (run 0 1 evs1 initial_state))))
     /\
     (i ∉ granted 0 1 evs2
            (fst (rotation_unlock 0 caller i (run 0 1 evs1 initial_state))))
     /\
     find_lock (locks_info (run 0 1 evs initial_state)) i = None /\
     forall c,
       rotation_unlock 0 c i (run 0 1 evs initial_state)
         = (run 0 1 evs initial_state, - EINVAL)).
Proof.
  intros evs.
  assert (Hlen : Z.of_nat (length evs) <= LONG_MAX) by (by vm_compute).
  split; [exact Hlen|].
  exact (lock_ids_unique_increasing 0 1 evs Hlen).
Defined.

Lemma lock_available_skips_wrapped_range_witness :
  0 <> 1 /\
  (let st := run 0 1 [RotationLock 1 0 5 1] initial_state in
   active_writers (slot st 0) = 1 /\
   covers 350 10 0 = true /\
   lock_available 0 350 10 0 st = true /\
   lock_available 0 350 10 1 st = true).
Proof.
  assert (H : 0 <> 1) by lia.
  split; [exact H|].
  exact (lock_available_skips_wrapped_range 0 1 H).
Defined.

Lemma set_orientation_wakes_nobody_witness :
  0 <> 1 /\
  (let st0 := run 0 1 [RotationLock 1 90 110 0] initial_state in
   let st := fst (set_orientation 100 st0) in
   snd (set_orientation 100 st0) = 0 /\
   lock_available 0 90 110 0 st0 = false /\
   lock_available 0 90 110 0 st = true /\
   requests st = [mk_waiter (mk_lock 0 1 90 110 0) false true] /\
   exec 0 1 (Resume 0) st = (st, None)).
Proof.
  assert (H : 0 <> 1) by lia.
  split; [exact H|].
  exact (set_orientation_wakes_nobody 0 1 H).
Defined.

(** ** Scenarios

    Runs of the model with ROT_READ = 0 and ROT_WRITE = 1. *)

(** Orientation 100: a writer takes 90..110 with id 0; a reader asking for
    95..105 sleeps; after the writer's unlock the reader runs again and
    returns id 1. *)
Example writer_then_blocked_reader :
  let evs := [SetOrientation 100; RotationLock 1 90 110 1] in
  snd (exec 0 1 (RotationLock 2 95 105 0) (run 0 1 evs initial_state)) = None
  /\
  granted 0 1
    (evs ++ [RotationLock 2 95 105 0; RotationUnlock 1 0; Resume 0])
    initial_state = [0; 1].
Proof. by vm_compute. Qed.

(** Orientation 0: a read lock on the wrapped range 350..10 is granted. *)
Example wrapped_read_granted :
  snd (rotation_lock 0 1 1 350 10 0 initial_state) = Some 0.
Proof. by vm_compute. Qed.

(** A waiting writer keeps later readers out: with orientation 100, a reader
    holds 90..110, a writer asking for 95..105 sleeps, and a second reader
    asking for 100..100 sleeps as well although no writer is active. *)
Example waiting_writer_blocks_reader :
  let evs := [SetOrientation 100; RotationLock 1 90 110 0;
              RotationLock 2 95 105 1] in
  waiting_writers (slot (run 0 1 evs initial_state) 100) = 1 /\
  active_writers (slot (run 0 1 evs initial_state) 100) = 0 /\
  snd (exec 0 1 (RotationLock 3 100 100 0) (run 0 1 evs initial_state)) = None.
Proof. by vm_compute. Qed.

(** ** The further properties at work

    Again with ROT_READ = 0 and ROT_WRITE = 1.  In the first run a reader
    (pid 1) holds 90..110 at orientation 100 and a writer (pid 2) waits for
    95..105; in the second a writer (pid 1) holds 90..110 and a reader
    (pid 2) waits for 95..105; in the third a writer holds 0..5. *)

Lemma counters_count_unwrapped_locks_witness :
  let evs := [SetOrientation 100; RotationLock 1 90 110 0;
              RotationLock 2 95 105 1] in
  0 <= 100 < 360 /\
  slot (run 0 1 evs initial_state) 100
    = counts 0 (run 0 1 evs initial_state) 100 /\
  0 <= active_readers (slot (run 0 1 evs initial_state) 100) /\
  0 <= active_writers (slot (run 0 1 evs initial_state) 100) <= 1 /\
  0 <= waiting_writers (slot (run 0 1 evs initial_state) 100) /\
  (active_writers (slot (run 0 1 evs initial_state) 100) = 1 ->
   active_readers (slot (run 0 1 evs initial_state) 100) = 0).
Proof.
  intros evs.
  assert (Hd : 0 <= 100 < 360) by lia.
  split; [exact Hd|].
  exact (counters_count_unwrapped_locks 0 1 evs 100 Hd).
Defined.

Lemma unwrapped_writer_is_alone_witness :
  let st := run 0 1 [RotationLock 1 0 5 1] initial_state in
  locks_info st !! 0%nat = Some (mk_lock 0 1 0 5 1) /\
  lock_type (mk_lock 0 1 0 5 1) <> 0 /\
  visits (mk_lock 0 1 0 5 1) 0 = true /\
  0%nat = 0%nat.
Proof.
  intros st.
  assert (Hj : locks_info st !! 0%nat = Some (mk_lock 0 1 0 5 1))
    by (by vm_compute).
  assert (Ht : lock_type (mk_lock 0 1 0 5 1) <> 0) by (simpl; lia).
  assert (Hv : visits (mk_lock 0 1 0 5 1) 0 = true) by reflexivity.
  split; [exact Hj|]. split; [exact Ht|]. split; [exact Hv|].
  exact (unwrapped_writer_is_alone 0 1 [RotationLock 1 0 5 1] 0 0%nat 0%nat
           _ _ ltac:(lia) Hj Hj Ht Hv Hv).
Defined.

Lemma locks_init_once_witness :
  locks (locks_init initial_state) = replicate 360 zero_lock /\
  locks_init (locks_init initial_state) = locks_init initial_state.
Proof.
  split.
  - apply (locks_init_once initial_state); reflexivity.
  - apply (locks_init_once (locks_init initial_state)). reflexivity.
Defined.

Lemma orientation_stays_in_range_witness :
  device_orientation
    (fst (exec 0 1 (RotationLock 1 90 110 0)
            (run 0 1 [SetOrientation 100] initial_state)))
  = device_orientation (run 0 1 [SetOrientation 100] initial_state).
Proof.
  apply (orientation_stays_in_range 0 1 [SetOrientation 100]).
  intros degree. discriminate.
Defined.

Lemma queued_calls_are_registered_witness :
  let evs := [SetOrientation 100; RotationLock 1 90 110 0;
              RotationLock 2 95 105 1] in
  let w := mk_waiter (mk_lock 1 2 95 105 1) true true in
  requests (run 0 1 evs initial_state) !! 0%nat = Some w /\
  0 <= lock_low (wait_lock w) < 360 /\
  0 <= lock_high (wait_lock w) < 360 /\
  (lock_type (wait_lock w) = 0 \/ lock_type (wait_lock w) = 1) /\
  (writer_waiting w = true <-> lock_type (wait_lock w) = 1).
Proof.
  intros evs w.
  assert (Hk : requests (run 0 1 evs initial_state) !! 0%nat = Some w)
    by (by vm_compute).
  split; [exact Hk|].
  exact (queued_calls_are_registered 0 1 evs 0%nat w Hk).
Defined.

Lemma wakeup_without_grant_changes_nothing_witness :
  let st := run 0 1 [SetOrientation 100; RotationLock 1 90 110 0;
                     RotationLock 2 95 105 1; Signal 0] initial_state in
  snd (exec 0 1 (Resume 0) st) = None /\
  locks (fst (exec 0 1 (Resume 0) st)) = locks st /\
  locks_info (fst (exec 0 1 (Resume 0) st)) = locks_info st /\
  next_lock_id (fst (exec 0 1 (Resume 0) st)) = next_lock_id st /\
  device_orientation (fst (exec 0 1 (Resume 0) st)) = device_orientation st /\
  (fun w => (wait_lock w, writer_waiting w))
     <$> requests (fst (exec 0 1 (Resume 0) st))
  = (fun w => (wait_lock w, writer_waiting w)) <$> requests st.
Proof.
  intros st.
  assert (H : snd (exec 0 1 (Resume 0) st) = None) by (by vm_compute).
  split; [exact H|].
  exact (wakeup_without_grant_changes_nothing 0 1
           [SetOrientation 100; RotationLock 1 90 110 0;
            RotationLock 2 95 105 1; Signal 0] 0%nat H).
Defined.

Lemma waiting_writer_blocks_readers_witness :
  let evs := [SetOrientation 100; RotationLock 1 90 110 0;
              RotationLock 2 95 105 1] in
  let w := mk_waiter (mk_lock 1 2 95 105 1) true true in
  requests (run 0 1 evs initial_state) !! 0%nat = Some w /\
  lock_available 0 100 100 0 (run 0 1 evs initial_state) = false.
Proof.
  intros evs w.
  assert (Hk : requests (run 0 1 evs initial_state) !! 0%nat = Some w)
    by (by vm_compute).
  split; [exact Hk|].
  apply (waiting_writer_blocks_readers 0 1 evs 0%nat w 100 100 100 Hk).
  - reflexivity.
  - simpl. lia.
  - lia.
Defined.

Lemma unlock_lets_available_waiter_in_witness :
  let st := run 0 1 [SetOrientation 100; RotationLock 1 90 110 1;
                     RotationLock 2 95 105 0] initial_state in
  let w := mk_waiter (mk_lock 1 2 95 105 0) false true in
  snd (rotation_unlock 0 1 0 st) = 0 /\
  Forall (fun w' => sleeping w' = false)
    (requests (fst (rotation_unlock 0 1 0 st))) /\
  snd (exec 0 1 (Resume 0) (fst (rotation_unlock 0 1 0 st)))
    = Some (lock_id (wait_lock w)) /\
  locks_info (fst (exec 0 1 (Resume 0) (fst (rotation_unlock 0 1 0 st))))
    = wait_lock w :: locks_info (fst (rotation_unlock 0 1 0 st)).
Proof.
  intros st w.
  assert (Hok : snd (rotation_unlock 0 1 0 st) = 0) by (by vm_compute).
  split; [exact Hok|].
  apply (unlock_lets_available_waiter_in 0 1 1 0 st 0%nat w Hok).
  - by vm_compute.
  - by vm_compute.
Defined.

Lemma rotation_lock_grant_effect_witness :
  let st1 := fst (rotation_lock 0 1 1 0 20 0 initial_state) in
  rotation_lock 0 1 1 0 20 0 initial_state = (st1, Some 0) /\
  0 = next_lock_id initial_state /\
  (0 <= 0 < 360 /\ 0 <= 20 < 360 /\ (0 = 0 \/ 0 = 1)) /\
  lock_available 0 0 20 0 initial_state = true /\
  locks_info st1 = mk_lock 0 1 0 20 0 :: locks_info initial_state /\
  requests st1 = requests initial_state /\
  next_lock_id st1 = long_wrap (0 + 1) /\
  device_orientation st1 = device_orientation initial_state /\
  forall d, 0 <= d < 360 ->
    slot st1 d =
      if (0 <=? d) && (d <=? 20)
      then (if 0 =? 0 then inc_active_readers (slot initial_state d)
            else inc_active_writers (slot initial_state d))
      else slot initial_state d.
Proof.
  intros st1.
  assert (H : rotation_lock 0 1 1 0 20 0 initial_state = (st1, Some 0))
    by (by vm_compute).
  split; [exact H|].
  apply (rotation_lock_grant_effect 0 1 1 0 20 0 initial_state st1 0).
  - intros _. reflexivity.
  - reflexivity.
  - exact H.
  - lia.
Defined.

Lemma rotation_lock_blocked_effect_witness :
  lock_available 0 90 110 1 initial_state = false /\
  snd (rotation_lock 0 1 1 90 110 1 initial_state) = None /\
  requests (fst (rotation_lock 0 1 1 90 110 1 initial_state))
    = mk_waiter (mk_lock (next_lock_id initial_state) 1 90 110 1)
        (1 =? 1) true :: requests initial_state /\
  locks_info (fst (rotation_lock 0 1 1 90 110 1 initial_state))
    = locks_info initial_state /\
  next_lock_id (fst (rotation_lock 0 1 1 90 110 1 initial_state))
    = long_wrap (next_lock_id initial_state + 1) /\
  device_orientation (fst (rotation_lock 0 1 1 90 110 1 initial_state))
    = device_orientation initial_state /\
  forall d, 0 <= d < 360 ->
    slot (fst (rotation_lock 0 1 1 90 110 1 initial_state)) d =
      if (1 =? 1) && ((90 <=? d) && (d <=? 110))
      then inc_waiting_writers (slot initial_state d)
      else slot initial_state d.
Proof.
  assert (H : lock_available 0 90 110 1 initial_state = false)
    by (by vm_compute).
  split; [exact H|].
  apply (rotation_lock_blocked_effect 0 1 1 90 110 1 initial_state).
  - intros _. reflexivity.
  - reflexivity.
  - lia.
  - lia.
  - right. reflexivity.
  - exact H.
Defined.

Lemma rotation_unlock_release_effect_witness :
  let st := fst (rotation_lock 0 1 1 0 20 0 initial_state) in
  snd (rotation_unlock 0 1 0 st) = 0 /\
  exists l,
    0 <= 0 /\ find_lock (locks_info st) 0 = Some l /\ lock_pid l = 1 /\
    locks_info (fst (rotation_unlock 0 1 0 st)) = list_del 0 (locks_info st)
    /\
    requests (fst (rotation_unlock 0 1 0 st)) = wake <$> requests st /\
    next_lock_id (fst (rotation_unlock 0 1 0 st)) = next_lock_id st /\
    device_orientation (fst (rotation_unlock 0 1 0 st))
      = device_orientation st /\
    forall d, 0 <= d < 360 ->
      slot (fst (rotation_unlock 0 1 0 st)) d =
        if (lock_low l <=? d) && (d <=? lock_high l)
        then (if lock_type l =? 0 then dec_active_readers (slot st d)
              else dec_active_writers (slot st d))
        else slot st d.
Proof.
  intros st.
  assert (H : snd (rotation_unlock 0 1 0 st) = 0) by (by vm_compute).
  split; [exact H|].
  assert (E : locks_info st = [mk_lock 0 1 0 20 0]) by (by vm_compute).
  apply (rotation_unlock_release_effect 0 1 0 st).
  - by vm_compute.
  - rewrite E. apply Forall_cons. split; [simpl; lia | apply Forall_nil_2].
  - exact H.
Defined.

Lemma held_locks_leave_only_by_unlock_witness :
  exists new,
    locks_info (fst (exec 0 1 (RotationLock 1 0 20 0) initial_state))
      = new ++ locks_info initial_state /\
    (length new <= 1)%nat.
Proof.
  apply (held_locks_leave_only_by_unlock 0 1 (RotationLock 1 0 20 0)
           initial_state).
  intros caller i. discriminate.
Defined.

Lemma read_grant_keeps_readers_available_witness :
  let st1 := fst (rotation_lock 0 1 1 0 20 0 initial_state) in
  rotation_lock 0 1 1 0 20 0 initial_state = (st1, Some 0) /\
  lock_available 0 5 10 0 st1 = lock_available 0 5 10 0 initial_state.
Proof.
  intros st1.
  assert (H : rotation_lock 0 1 1 0 20 0 initial_state = (st1, Some 0))
    by (by vm_compute).
  split; [exact H|].
  apply (read_grant_keeps_readers_available 0 1 1 0 20 initial_state st1 0
           5 10).
  - intros _. reflexivity.
  - exact H.
  - lia.
Defined.

Lemma held_lock_blocks_requests_witness :
  let st := run 0 1 [RotationLock 1 0 5 1] initial_state in
  locks_info st !! 0%nat = Some (mk_lock 0 1 0 5 1) /\
  lock_available 0 0 3 0 st = false.
Proof.
  intros st.
  assert (Hj : locks_info st !! 0%nat = Some (mk_lock 0 1 0 5 1))
    by (by vm_compute).
  split; [exact Hj|].
  apply (held_lock_blocks_requests 0 1 [RotationLock 1 0 5 1] 0%nat
           (mk_lock 0 1 0 5 1) 0 0 3 0).
  - lia.
  - exact Hj.
  - simpl. lia.
  - lia.
  - left. simpl. lia.
Defined.

Lemma wrapped_request_decided_by_orientation_witness :
  locks (fst (rotation_lock 0 1 1 350 10 1 initial_state))
    = locks initial_state /\
  (350 <= device_orientation initial_state \/
   device_orientation initial_state <= 10 ->
   snd (rotation_lock 0 1 1 350 10 1 initial_state)
     = Some (next_lock_id initial_state)) /\
  (10 < device_orientation initial_state < 350 ->
   snd (rotation_lock 0 1 1 350 10 1 initial_state) = None).
Proof.
  apply (wrapped_request_decided_by_orientation 0 1 1 350 10 1 initial_state).
  - intros _. reflexivity.
  - lia.
  - lia.
  - lia.
  - right. reflexivity.
Defined.

Lemma queued_grant_effect_witness :
  let st := fst (rotation_unlock 0 1 0
                   (run 0 1 [SetOrientation 100; RotationLock 1 90 110 1;
                             RotationLock 2 95 105 0] initial_state)) in
  let st1 := fst (rotation_lock_loop 0 1 0 st) in
  rotation_lock_loop 0 1 0 st = (st1, Some 1) /\
  exists w,
    requests st !! 0%nat = Some w /\ sleeping w = false /\
    1 = lock_id (wait_lock w) /\
    lock_available 0 (lock_low (wait_lock w)) (lock_high (wait_lock w))
      (lock_type (wait_lock w)) st = true /\
    locks_info st1 = wait_lock w :: locks_info st /\
    requests st1 = delete 0%nat (requests st) /\
    forall d, 0 <= d < 360 ->
      slot st1 d =
        if (lock_low (wait_lock w) <=? d) && (d <=? lock_high (wait_lock w))
        then
          (if lock_type (wait_lock w) =? 0
           then inc_active_readers
                  (if writer_waiting w then dec_waiting_writers (slot st d)
                   else slot st d)
           else inc_active_writers
                  (if writer_waiting w then dec_waiting_writers (slot st d)
                   else slot st d))
        else slot st d.
Proof.
  intros st st1.
  assert (H : rotation_lock_loop 0 1 0 st = (st1, Some 1)) by (by vm_compute).
  split; [exact H|].
  assert (E : requests st = [mk_waiter (mk_lock 1 2 95 105 0) false false])
    by (by vm_compute).
  apply (queued_grant_effect 0 1 0%nat st st1 1).
  - by vm_compute.
  - rewrite E. apply Forall_cons. split; [simpl; lia | apply Forall_nil_2].
  - exact H.
Defined.

Lemma owner_can_release_witness :
  let st := run 0 1 [RotationLock 1 0 5 1] initial_state in
  let l := mk_lock 0 1 0 5 1 in
  locks_info st !! 0%nat = Some l /\
  snd (rotation_unlock 0 (lock_pid l) (lock_id l) st) = 0 /\
  locks_info (fst (rotation_unlock 0 (lock_pid l) (lock_id l) st))
    = delete 0%nat (locks_info st) /\
  forall c, c <> lock_pid l ->
    rotation_unlock 0 c (lock_id l) st = (st, - EPERM).
Proof.
  intros st l.
  assert (Hj : locks_info st !! 0%nat = Some l) by (by vm_compute).
  split; [exact Hj|].
  apply (owner_can_release 0 1 [RotationLock 1 0 5 1] 0%nat l).
  - by vm_compute.
  - exact Hj.
Defined.

Lemma run_well_formed_witness :
  let evs := [SetOrientation 100; RotationLock 1 90 110 0;
              RotationLock 2 95 105 1] in
  zeroed_until_init (run 0 1 evs initial_state) /\
  ids_ok (run 0 1 evs initial_state) /\
  length (locks (run 0 1 evs initial_state)) = 360%nat.
Proof.
  intros evs. apply (run_well_formed 0 1 evs). by vm_compute.
Defined.
